(** * whisperx-api-server: job queue and background worker

    A shallow embedding of the job lifecycle of the server:

    - [db_models.py]: the [TranscriptionJob] row;
    - [services/worker.py]: [TranscriptionWorker] ([_run], [_get_next_job],
      [_process_job], [_cleanup_audio_file]);
    - [routers/transcription_jobs.py]: [_job_to_response], [create_job],
      [list_jobs], [get_job], [delete_job].

    Conventions.
    - The table [transcription_jobs] is a list of rows in insertion (rowid)
      order; the primary key is the column [id].
    - SQL [DateTime] values are integers (a count of clock ticks); Python
      [float] values (seconds, thresholds) are rationals: no claim below
      depends on rounding.
    - Python code runs in the monad [M]: a state monad over [World] with
      exceptions; every exception is an instance of [Exception].  Every
      statement sent to the database is taken to execute successfully, and
      each function body touches the table atomically.
    - The transcription engine ([models.load_model_instance],
      [transcriber.transcribe]), [json] and number formatting are external:
      they are parameters of the development. *)

From Stdlib Require Import ZArith QArith String Ascii List Bool Lia.
From Stdlib Require Import DecimalString Sorted.
Import ListNotations.

Local Open Scope string_scope.
Local Open Scope Z_scope.

(** ** Rows of [transcription_jobs] (db_models.py) *)

Record TranscriptionJob : Type := mkJob {
  id : string;
  status : string;
  audio_path : string;
  original_filename : option string;
  transcript : option string;
  error_message : option string;
  model : string;
  language : option string;
  diarize : bool;
  min_speakers : option Z;
  max_speakers : option Z;
  chunk_size : Z;
  vad_onset : Q;
  vad_offset : Q;
  duration : option Q;
  processing_time : option Q;
  created_at : Z;
  updated_at : Z;
  completed_at : option Z
}.

(** The columns that are assigned after creation; every attribute assignment
    of the source is one of the setters below. *)
Definition with_columns (j : TranscriptionJob)
    (st : string) (tr em : option string) (du pt : option Q)
    (ua : Z) (ca : option Z) : TranscriptionJob :=
  {| id := id j; status := st; audio_path := audio_path j;
     original_filename := original_filename j;
     transcript := tr; error_message := em;
     model := model j; language := language j; diarize := diarize j;
     min_speakers := min_speakers j; max_speakers := max_speakers j;
     chunk_size := chunk_size j; vad_onset := vad_onset j;
     vad_offset := vad_offset j;
     duration := du; processing_time := pt;
     created_at := created_at j; updated_at := ua; completed_at := ca |}.

Definition set_status (st : string) (j : TranscriptionJob) :=
  with_columns j st (transcript j) (error_message j) (duration j)
    (processing_time j) (updated_at j) (completed_at j).
Definition set_transcript (tr : option string) (j : TranscriptionJob) :=
  with_columns j (status j) tr (error_message j) (duration j)
    (processing_time j) (updated_at j) (completed_at j).
Definition set_error_message (em : option string) (j : TranscriptionJob) :=
  with_columns j (status j) (transcript j) em (duration j)
    (processing_time j) (updated_at j) (completed_at j).
Definition set_duration (du : option Q) (j : TranscriptionJob) :=
  with_columns j (status j) (transcript j) (error_message j) du
    (processing_time j) (updated_at j) (completed_at j).
Definition set_processing_time (pt : option Q) (j : TranscriptionJob) :=
  with_columns j (status j) (transcript j) (error_message j) (duration j)
    pt (updated_at j) (completed_at j).
Definition set_updated_at (ua : Z) (j : TranscriptionJob) :=
  with_columns j (status j) (transcript j) (error_message j) (duration j)
    (processing_time j) ua (completed_at j).
Definition set_completed_at (ca : option Z) (j : TranscriptionJob) :=
  with_columns j (status j) (transcript j) (error_message j) (duration j)
    (processing_time j) (updated_at j) ca.

(** ** The world the server runs in *)

Inductive Level : Type := INFO | WARNING | ERROR.

(** Observable effects, in the order they happen.  [EvCleanup] is a ghost
    event recorded on entry to [_cleanup_audio_file]; [EvRemove] is a
    successful [os.remove]. *)
Inductive Event : Type :=
| EvLog (lvl : Level) (msg : string)
| EvSleep (secs : Q)
| EvCleanup (path : string)
| EvRemove (path : string).

Record World : Type := mkWorld {
  db : list TranscriptionJob;        (* table transcription_jobs *)
  files : list string;               (* paths that exist *)
  undeletable : list string;         (* paths on which os.remove raises *)
  events : list Event;
  time_now : Q;                      (* time.time() *)
  utc_now : Z;                       (* datetime.utcnow(), func.now() *)
  _running : bool;                   (* TranscriptionWorker._running *)
  _current_job_id : option string    (* TranscriptionWorker._current_job_id *)
}.

Definition with_db (w : World) (d : list TranscriptionJob) : World :=
  mkWorld d (files w) (undeletable w) (events w) (time_now w) (utc_now w)
    (_running w) (_current_job_id w).
Definition with_files (w : World) (f : list string) : World :=
  mkWorld (db w) f (undeletable w) (events w) (time_now w) (utc_now w)
    (_running w) (_current_job_id w).
Definition with_events (w : World) (e : list Event) : World :=
  mkWorld (db w) (files w) (undeletable w) e (time_now w) (utc_now w)
    (_running w) (_current_job_id w).
Definition with_running (w : World) (b : bool) : World :=
  mkWorld (db w) (files w) (undeletable w) (events w) (time_now w) (utc_now w)
    b (_current_job_id w).
Definition with_current (w : World) (c : option string) : World :=
  mkWorld (db w) (files w) (undeletable w) (events w) (time_now w) (utc_now w)
    (_running w) c.

(** ** Python exceptions and the monad *)

Record PyExc : Type := mkExc { exc_type : string; exc_str : string }.

Inductive Result (A : Type) : Type :=
| Ok (a : A)
| Raise (e : PyExc).
Arguments Ok {A} a.
Arguments Raise {A} e.

Definition M (A : Type) : Type := World -> Result A * World.

Definition ret {A} (a : A) : M A := fun w => (Ok a, w).
Definition raise {A} (e : PyExc) : M A := fun w => (Raise e, w).
Definition bind {A B} (c : M A) (k : A -> M B) : M B :=
  fun w => match c w with
           | (Ok a, w') => k a w'
           | (Raise e, w') => (Raise e, w')
           end.

Declare Scope py_scope.
Delimit Scope py_scope with py.
Notation "x <- c ;; k" := (bind c (fun x => k))
  (at level 61, c at next level, right associativity) : py_scope.
Notation "c ;; k" := (bind c (fun _ => k))
  (at level 61, right associativity) : py_scope.
Local Open Scope py_scope.

(** [try: body except Exception as e: handler e] *)
Definition try_except {A} (body : M A) (handler : PyExc -> M A) : M A :=
  fun w => match body w with
           | (Ok a, w') => (Ok a, w')
           | (Raise e, w') => handler e w'
           end.

(** [try: body finally: final] *)
Definition try_finally {A} (body : M A) (final : M unit) : M A :=
  fun w => match body w with
           | (r, w') => match final w' with
                        | (Ok _, w'') => (r, w'')
                        | (Raise e, w'') => (Raise e, w'')
                        end
           end.

(** Run [c] and hand its outcome, normal or exceptional, to the caller. *)
Definition attempt {A} (c : M A) : M (Result A) :=
  fun w => match c w with (r, w') => (Ok r, w') end.

Definition get_world : M World := fun w => (Ok w, w).
Definition modify (f : World -> World) : M unit := fun w => (Ok tt, f w).

Definition emit (e : Event) : M unit :=
  modify (fun w => with_events w (events w ++ [e])).
Definition logger (lvl : Level) (msg : string) : M unit := emit (EvLog lvl msg).
Definition time_sleep (secs : Q) : M unit := emit (EvSleep secs).
Definition time_time : M Q := fun w => (Ok (time_now w), w).
Definition datetime_utcnow : M Z := fun w => (Ok (utc_now w), w).

(** ** The store: queries and commits of a session *)

(** [ORDER BY key ASC]: a stable insertion sort. *)
Fixpoint insert_asc {A} (key : A -> Z) (x : A) (l : list A) : list A :=
  match l with
  | [] => [x]
  | y :: l' => if key x <=? key y then x :: l else y :: insert_asc key x l'
  end.

Fixpoint order_by_asc {A} (key : A -> Z) (l : list A) : list A :=
  match l with
  | [] => []
  | x :: l' => insert_asc key x (order_by_asc key l')
  end.

(** [ORDER BY key DESC] *)
Definition order_by_desc {A} (key : A -> Z) (l : list A) : list A :=
  order_by_asc (fun x => - key x) l.

Definition has_id (k : string) (r : TranscriptionJob) : bool :=
  String.eqb (id r) k.
Definition has_status (s : string) (r : TranscriptionJob) : bool :=
  String.eqb (status r) s.

(** [db.query(TranscriptionJob).filter(p).order_by(key.asc()).first()] *)
Definition query_first_asc (p : TranscriptionJob -> bool)
    (key : TranscriptionJob -> Z) : M (option TranscriptionJob) :=
  fun w => (Ok (hd_error (order_by_asc key (filter p (db w)))), w).

(** [db.query(TranscriptionJob).filter(TranscriptionJob.id == k).first()] *)
Definition query_by_id (k : string) : M (option TranscriptionJob) :=
  fun w => (Ok (find (has_id k) (db w)), w).

(** [db.commit()] with one dirty object: [UPDATE transcription_jobs SET ...,
    updated_at = now WHERE id = k]; [f] assigns the modified columns. *)
Definition update_rows (k : string) (f : TranscriptionJob -> TranscriptionJob)
    (now : Z) (rows : list TranscriptionJob) : list TranscriptionJob :=
  map (fun r => if has_id k r then set_updated_at now (f r) else r) rows.

Definition db_commit_update (k : string)
    (f : TranscriptionJob -> TranscriptionJob) : M unit :=
  modify (fun w => with_db w (update_rows k f (utc_now w) (db w))).

(** [db.refresh(job)]: reload the row; raises when it is gone. *)
Definition db_refresh (k : string) : M TranscriptionJob :=
  fun w => match find (has_id k) (db w) with
           | Some r => (Ok r, w)
           | None => (Raise (mkExc "InvalidRequestError"
                               "Could not refresh instance"), w)
           end.

(** Commits are immediate in this model, so [rollback] and [close] have
    nothing to undo or release. *)
Definition db_rollback : M unit := ret tt.
Definition db_close : M unit := ret tt.

(** ** worker.py: [TranscriptionWorker._get_next_job] *)

Definition _get_next_job : M (option TranscriptionJob) :=
  try_finally
    (try_except
       (job <- query_first_asc (has_status "pending") created_at ;;
        match job with
        | Some job =>
            db_commit_update (id job) (set_status "processing") ;;
            job <- db_refresh (id job) ;;
            logger INFO ("Picked up job: " ++ id job) ;;
            ret (Some job)
        | None => ret None
        end)
       (fun e =>
          db_rollback ;;
          logger ERROR ("Error getting next job: " ++ exc_str e) ;;
          ret None))
    db_close.

(** ** The filesystem *)

(** [os.path.exists(p)]; the empty path never exists. *)
Definition exists_file (p : string) (w : World) : bool :=
  negb (String.eqb p "") && existsb (String.eqb p) (files w).

Definition os_path_exists (p : string) : M bool :=
  fun w => (Ok (exists_file p w), w).

(** [os.remove(p)]: the path disappears, unless the operating system refuses
    (then [OSError] is raised and the file stays). *)
Definition os_remove (p : string) : M unit :=
  fun w =>
    if existsb (String.eqb p) (undeletable w)
    then (Raise (mkExc "OSError" "Operation not permitted"), w)
    else (Ok tt,
          with_events
            (with_files w (filter (fun q => negb (String.eqb q p)) (files w)))
            (events w ++ [EvRemove p])).

(** [open(p, "wb").write(...)] *)
Definition write_file (p : string) : M unit :=
  modify (fun w => if existsb (String.eqb p) (files w) then w
                   else with_files w (p :: files w)).

(** [posixpath.basename]: what follows the last slash. *)
Fixpoint basename_aux (s acc : string) : string :=
  match s with
  | EmptyString => acc
  | String c s' =>
      if Ascii.eqb c "/"%char then basename_aux s' EmptyString
      else basename_aux s' (acc ++ String c EmptyString)
  end.
Definition os_path_basename (p : string) : string := basename_aux p EmptyString.

(** ** worker.py: [TranscriptionWorker._cleanup_audio_file] *)

Definition _cleanup_audio_file (audio_path : string) : M unit :=
  emit (EvCleanup audio_path) ;;
  try_except
    (there <- os_path_exists audio_path ;;
     if negb (String.eqb audio_path "") && there then
       os_remove audio_path ;;
       logger INFO ("Deleted audio file: " ++ audio_path)
     else ret tt)
    (fun e =>
       logger WARNING
         ("Failed to delete audio file " ++ audio_path ++ ": " ++ exc_str e)).

(** ** JSON values and Python dictionaries *)

#[warnings="-register-all"]
Inductive JSON : Type :=
| JNull
| JBool (b : bool)
| JNum (q : Q)
| JStr (s : string)
| JArr (items : list JSON)
| JObj (fields : list (string * JSON)).

Definition PyDict : Type := list (string * JSON).

(** [d.get(k)] and [d.get(k, default)] *)
Fixpoint dict_get (k : string) (d : PyDict) : option JSON :=
  match d with
  | [] => None
  | (k', v) :: d' => if String.eqb k' k then Some v else dict_get k d'
  end.
Definition dict_get_default (k : string) (d : PyDict) (default : JSON) : JSON :=
  match dict_get k d with Some v => v | None => default end.

(** ** The call into the transcription engine *)

Record FakeUploadFile : Type := mkFakeUploadFile {
  filepath : string;
  filename : string
}.

Definition new_FakeUploadFile (path : string) : FakeUploadFile :=
  {| filepath := path; filename := os_path_basename path |}.

(** The keyword arguments of [transcriber.transcribe(...)]. *)
Module Kwargs.
Record t (ModelInstance : Type) : Type := make {
  audio_file : FakeUploadFile;
  batch_size : Z;
  chunk_size : Z;
  asr_options : PyDict;
  language : option string;
  whispermodel : ModelInstance;
  align : bool;
  diarize : bool;
  request_id : string;
  task : string
}.
Arguments make {ModelInstance}.
Arguments audio_file {ModelInstance}.
Arguments batch_size {ModelInstance}.
Arguments chunk_size {ModelInstance}.
Arguments asr_options {ModelInstance}.
Arguments language {ModelInstance}.
Arguments whispermodel {ModelInstance}.
Arguments align {ModelInstance}.
Arguments diarize {ModelInstance}.
Arguments request_id {ModelInstance}.
Arguments task {ModelInstance}.
End Kwargs.

(** What the server takes from outside this repository's sources: the event
    loop and the engine (which run while other threads may touch the world,
    hence computations in [M]), [json], the formatting of floats, and
    pydantic's field validation. *)
Class Externals : Type := {
  ModelInstance : Type;
  new_event_loop : M unit;
  load_model_instance : string -> M ModelInstance;
  transcribe : Kwargs.t ModelInstance -> M PyDict;
  json_dumps : JSON -> string;
  json_loads : string -> option JSON;      (* None: JSONDecodeError *)
  format_2f : Q -> string;                 (* f"{x:.2f}" *)
  validate_float : JSON -> option Q;       (* field of type float *)
  validate_str : JSON -> option string     (* field of type str *)
}.

Definition transcribe_kwargs {MI : Type} (job : TranscriptionJob)
    (model_instance : MI) : Kwargs.t MI :=
  Kwargs.make
    (new_FakeUploadFile (audio_path job))   (* audio_file *)
    16                                      (* batch_size *)
    (chunk_size job)                        (* chunk_size *)
    []                                      (* asr_options *)
    (language job)                          (* language *)
    model_instance                          (* whispermodel *)
    true                                    (* align *)
    (diarize job)                           (* diarize *)
    (id job)                                (* request_id *)
    "transcribe".                           (* task *)

(** ** worker.py: [TranscriptionWorker._process_job] *)

(** Lines 173-181: the stored transcript. *)
Definition result_segments (result : PyDict) : JSON :=
  match dict_get_default "segments" result (JArr []) with
  | JObj inner => dict_get_default "segments" inner (JArr [])
  | segments => segments
  end.

Definition transcript_payload (result : PyDict) : JSON :=
  JObj [ ("text", dict_get_default "text" result (JStr ""));
         ("segments", result_segments result);
         ("language", dict_get_default "language" result (JStr "")) ].

(** [result.get("duration")], as the Float column stores it. *)
Definition result_duration (result : PyDict) : option Q :=
  match dict_get "duration" result with
  | Some (JNum q) => Some q
  | _ => None
  end.

Definition none_has_no_attribute (attr : string) : PyExc :=
  mkExc "AttributeError"
        ("'NoneType' object has no attribute '" ++ attr ++ "'").

(** [time.time() - start_time if 'start_time' in locals() else None] *)
Definition elapsed_since (start_time : option Q) (now : Q) : option Q :=
  match start_time with
  | Some t0 => Some (now - t0)%Q
  | None => None
  end.

(** Lines 199-201: the attributes assigned on failure. *)
Definition assign_failed (elapsed : option Q) (e : PyExc)
    (job : TranscriptionJob) : TranscriptionJob :=
  set_processing_time elapsed
    (set_error_message (Some (exc_str e))
       (set_status "failed" job)).

(** Lines 192-208, the [except Exception as e] block.  [job] is the local
    variable as it stands when the exception is raised ([None] after a
    re-fetch that found no row); [start_time] is bound or not. *)
Definition on_processing_error (job : option TranscriptionJob)
    (start_time : option Q) (e : PyExc) : M unit :=
  match job with
  | None => raise (none_has_no_attribute "id")
  | Some job =>
      logger ERROR ("Error processing job " ++ id job ++ ": " ++ exc_str e) ;;
      try_except
        (row <- query_by_id (id job) ;;
         match row with
         | Some row =>
             now <- time_time ;;
             db_commit_update (id row)
               (assign_failed (elapsed_since start_time now) e) ;;
             _cleanup_audio_file (audio_path row)
         | None => ret tt
         end)
        (fun update_error =>
           logger ERROR
             ("Error updating failed job: " ++ exc_str update_error) ;;
           db_rollback)
  end.

(** Lines 170-184: the attributes assigned on success. *)
Definition assign_completed `{Externals} (completed_at : Z)
    (processing_time : Q) (result : PyDict) (job : TranscriptionJob)
  : TranscriptionJob :=
  set_completed_at (Some completed_at)
    (set_processing_time (Some processing_time)
       (set_duration (result_duration result)
          (set_transcript (Some (json_dumps (transcript_payload result)))
             (set_status "completed" job)))).

(** Lines 165-190, after the engine has returned [result]. *)
Definition write_completed `{Externals} (job : TranscriptionJob)
    (start_time : Q) (result : PyDict) : M unit :=
  now <- time_time ;;
  let processing_time := (now - start_time)%Q in
  row <- query_by_id (id job) ;;
  match row with
  | None =>
      on_processing_error None (Some start_time)
        (none_has_no_attribute "status")
  | Some row =>
      completed_at <- datetime_utcnow ;;
      logger INFO ("Job " ++ id row ++ " completed successfully in "
                     ++ format_2f processing_time ++ "s") ;;
      db_commit_update (id row)
        (assign_completed completed_at processing_time result) ;;
      _cleanup_audio_file (audio_path row)
  end.

Definition _process_job `{Externals} (job : TranscriptionJob) : M unit :=
  modify (fun w => with_current w (Some (id job))) ;;
  try_finally
    (logger INFO ("Processing job " ++ id job) ;;
     loop <- attempt new_event_loop ;;
     match loop with
     | Raise e => on_processing_error (Some job) None e
     | Ok _ =>
         start_time <- time_time ;;
         outcome <- attempt
           (model_instance <- load_model_instance (model job) ;;
            transcribe (transcribe_kwargs job model_instance)) ;;
         match outcome with
         | Raise e => on_processing_error (Some job) (Some start_time) e
         | Ok result => write_completed job start_time result
         end
     end)
    (db_close ;; modify (fun w => with_current w None)).

(** ** worker.py: [TranscriptionWorker._run], [stop], [get_status] *)

(** The statements inside the [try] of the loop. *)
Definition _run_body `{Externals} (_poll_interval : Q) : M unit :=
  job <- _get_next_job ;;
  match job with
  | Some job => _process_job job
  | None => time_sleep _poll_interval
  end.

(** One turn of [while self._running]. *)
Definition _run_iteration `{Externals} (_poll_interval : Q) : M unit :=
  try_except
    (_run_body _poll_interval)
    (fun e =>
       logger ERROR ("Worker error: " ++ exc_str e) ;;
       time_sleep _poll_interval).

Inductive LoopState : Type :=
| LoopEnded      (* the while condition was found false *)
| LoopRunning.   (* still looping when the observation stops *)

(** The loop, observed for as many turns as [others] is long: before each
    test of [self._running] the other threads (API handlers, [stop]) make
    the step given by the schedule. *)
Fixpoint run_loop `{Externals} (_poll_interval : Q)
    (others : list (World -> World)) : M LoopState :=
  match others with
  | [] => ret LoopRunning
  | other :: rest =>
      modify other ;;
      w <- get_world ;;
      if _running w then
        _run_iteration _poll_interval ;;
        run_loop _poll_interval rest
      else ret LoopEnded
  end.


(** [stop], as the loop sees it: the flag is cleared. *)
Definition stop (w : World) : World := with_running w false.

(** ** schemas.py: response models *)

Record TranscriptSegment : Type := mkSegment {
  seg_start : Q;
  seg_end : Q;
  seg_text : string;
  seg_speaker : option string
}.

Module Response.
Record t : Type := make {
  id : string;
  status : string;
  original_filename : option string;
  model : string;
  language : option string;
  diarize : bool;
  min_speakers : option Z;
  max_speakers : option Z;
  chunk_size : Z;
  text : option string;
  segments : option (list TranscriptSegment);
  detected_language : option string;
  duration : option Q;
  processing_time : option Q;
  error_message : option string;
  created_at : Z;
  updated_at : Z;
  completed_at : option Z
}.
End Response.

Record TranscriptionJobListResponse : Type := mkListResponse {
  jobs : list Response.t;
  total : Z;
  page : Z;
  limit : Z
}.

(** ** transcription_jobs.py: [_job_to_response] *)

Definition validation_error (field : string) : PyExc :=
  mkExc "ValidationError" ("validation error for " ++ field).

Definition lift_result {A} (r : Result A) : M A := fun w => (r, w).

(** A field of type [Optional[str]]. *)
Definition validate_optional_str `{Externals} (v : option JSON)
  : option (option string) :=
  match v with
  | None | Some JNull => Some None
  | Some v => option_map Some (validate_str v)
  end.

(** [for seg in raw_segments]: what Python iterates over. *)
Definition py_iter (v : JSON) : Result (list JSON) :=
  match v with
  | JArr items => Ok items
  | JObj fields => Ok (map (fun kv => JStr (fst kv)) fields)
  | JStr s => Ok (map (fun c => JStr (String c EmptyString))
                      (list_ascii_of_string s))
  | _ => Raise (mkExc "TypeError" "object is not iterable")
  end.

(** [x.get(...)] on a decoded value: only a dict has [get]. *)
Definition as_dict (v : JSON) : Result PyDict :=
  match v with
  | JObj d => Ok d
  | _ => Raise (mkExc "AttributeError" "object has no attribute 'get'")
  end.

Definition make_segment `{Externals} (seg : JSON) : Result TranscriptSegment :=
  match as_dict seg with
  | Raise e => Raise e
  | Ok d =>
      match validate_float (dict_get_default "start" d (JNum 0)),
            validate_float (dict_get_default "end" d (JNum 0)),
            validate_str (dict_get_default "text" d (JStr "")),
            validate_optional_str (dict_get "speaker" d) with
      | Some s, Some e, Some t, Some sp => Ok (mkSegment s e t sp)
      | _, _, _, _ => Raise (validation_error "TranscriptSegment")
      end
  end.

Fixpoint map_result {A B} (f : A -> Result B) (l : list A) : Result (list B) :=
  match l with
  | [] => Ok []
  | x :: l' =>
      match f x with
      | Raise e => Raise e
      | Ok y => match map_result f l' with
                | Raise e => Raise e
                | Ok ys => Ok (y :: ys)
                end
      end
  end.

(** The three locals [text], [segments], [detected_language]. *)
Definition Parsed : Type :=
  (option JSON * option (list TranscriptSegment) * option JSON)%type.

(** Lines 38-50: the body of the [try], after [json.loads] has returned. *)
Definition read_transcript `{Externals} (transcript_data : JSON)
  : Result Parsed :=
  match as_dict transcript_data with
  | Raise e => Raise e
  | Ok d =>
      let text := dict_get "text" d in
      let detected_language := dict_get "language" d in
      match py_iter (dict_get_default "segments" d (JArr [])) with
      | Raise e => Raise e
      | Ok raw_segments =>
          match map_result make_segment raw_segments with
          | Raise e => Raise e
          | Ok segments => Ok (text, Some segments, detected_language)
          end
      end
  end.

(** Python truth of an [Optional[str]]. *)
Definition truthy (s : option string) : bool :=
  match s with
  | Some s => negb (String.eqb s "")
  | None => false
  end.

Definition _job_to_response `{Externals} (job : TranscriptionJob)
  : M Response.t :=
  parsed <-
    (if truthy (transcript job) then
       match json_loads (match transcript job with Some s => s | None => "" end)
       with
       | Some transcript_data => lift_result (read_transcript transcript_data)
       | None =>
           (* except json.JSONDecodeError *)
           logger WARNING
             ("Failed to parse transcript JSON for job " ++ id job) ;;
           ret (None, None, None)
       end
     else ret (None, None, None)) ;;
  let '(text, segments, detected_language) := parsed in
  match validate_optional_str text, validate_optional_str detected_language with
  | Some text, Some detected_language =>
      ret (Response.make (id job) (status job) (original_filename job)
             (model job) (language job) (diarize job)
             (min_speakers job) (max_speakers job) (chunk_size job)
             text segments detected_language
             (duration job) (processing_time job) (error_message job)
             (created_at job) (updated_at job) (completed_at job))
  | _, _ => raise (validation_error "TranscriptionJobResponse")
  end.

(** ** transcription_jobs.py: the endpoints *)

Definition http_exception (code : string) (detail : string) : PyExc :=
  mkExc ("HTTPException " ++ code) detail.

(** [posixpath.splitext(p)[1]] *)
Fixpoint strip_leading_dots (s : string) : string :=
  match s with
  | String c s' => if Ascii.eqb c "."%char then strip_leading_dots s' else s
  | EmptyString => s
  end.
Fixpoint from_last_dot (s : string) : option string :=
  match s with
  | EmptyString => None
  | String c s' =>
      match from_last_dot s' with
      | Some e => Some e
      | None => if Ascii.eqb c "."%char then Some s else None
      end
  end.
Definition splitext_ext (p : string) : string :=
  match from_last_dot (strip_leading_dots (os_path_basename p)) with
  | Some e => e
  | None => ""
  end.

Fixpoint ends_with_slash (s : string) : bool :=
  match s with
  | EmptyString => false
  | String c EmptyString => Ascii.eqb c "/"%char
  | String _ s' => ends_with_slash s'
  end.

(** [posixpath.join(a, b)] *)
Definition os_path_join (a b : string) : string :=
  match b with
  | String c _ =>
      if Ascii.eqb c "/"%char then b
      else if String.eqb a "" || ends_with_slash a then a ++ b
      else a ++ "/" ++ b
  | EmptyString =>
      if String.eqb a "" || ends_with_slash a then a else a ++ "/"
  end.

(** [a or b] on strings *)
Definition str_or (a : option string) (b : string) : string :=
  match a with
  | Some s => if String.eqb s "" then b else s
  | None => b
  end.

(** [db.add(job); db.commit(); db.refresh(job)]: the primary key rejects a
    second row with the same [id]; the server fills both timestamps. *)
Definition db_insert (job : TranscriptionJob) : M TranscriptionJob :=
  fun w =>
    if existsb (has_id (id job)) (db w)
    then (Raise (mkExc "IntegrityError"
                   "UNIQUE constraint failed: transcription_jobs.id"), w)
    else
      let row := mkJob (id job) (status job) (audio_path job)
                   (original_filename job) (transcript job)
                   (error_message job) (model job) (language job)
                   (diarize job) (min_speakers job) (max_speakers job)
                   (chunk_size job) (vad_onset job) (vad_offset job)
                   (duration job) (processing_time job)
                   (utc_now w) (utc_now w) (completed_at job) in
      (Ok row, with_db w (db w ++ [row])).

(** The form fields of [POST /jobs]. *)
Record JobForm : Type := mkForm {
  form_model : string;
  form_language : option string;
  form_diarize : bool;
  form_min_speakers : option Z;
  form_max_speakers : option Z;
  form_chunk_size : Z;
  form_vad_onset : Q;
  form_vad_offset : Q
}.

(** [len(contents)] in decimal. *)
Definition str_of_len (contents : string) : string :=
  NilEmpty.string_of_uint (Nat.to_uint (String.length contents)).

(** [create_job].  [upload_dir] is the environment's [UPLOAD_DIR], [job_id]
    the value drawn by [uuid.uuid4()], [upload] the bytes read from the
    upload and written to disk, or the exception that reading or writing
    raised. *)
Definition create_job `{Externals} (upload_dir job_id : string)
    (file_filename : option string) (upload : Result string) (form : JobForm)
  : M Response.t :=
  let file_ext :=
    let e := splitext_ext (str_or file_filename "audio.wav") in
    if String.eqb e "" then ".wav" else e in
  let audio_path := os_path_join upload_dir (job_id ++ file_ext) in
  match upload with
  | Ok contents =>
      write_file audio_path ;;
      logger INFO ("Saved audio file: " ++ audio_path ++ " ("
                     ++ str_of_len contents ++ " bytes)")
  | Raise e =>
      logger ERROR ("Failed to save audio file: " ++ exc_str e) ;;
      raise (http_exception "500" "Failed to save audio file")
  end ;;
  job <- db_insert
           (mkJob job_id "pending" audio_path file_filename None None
              (form_model form) (form_language form) (form_diarize form)
              (form_min_speakers form) (form_max_speakers form)
              (form_chunk_size form) (form_vad_onset form)
              (form_vad_offset form) None None 0 0 None) ;;
  logger INFO ("Created job: " ++ id job) ;;
  _job_to_response job.

(** [OFFSET n] and [LIMIT n]; SQLite reads a negative offset as none and a
    negative limit as no limit. *)
Definition sql_offset {A} (n : Z) (l : list A) : list A := skipn (Z.to_nat n) l.
Definition sql_limit {A} (n : Z) (l : list A) : list A :=
  if n <? 0 then l else firstn (Z.to_nat n) l.

Fixpoint map_M {A B} (f : A -> M B) (l : list A) : M (list B) :=
  match l with
  | [] => ret []
  | x :: l' => y <- f x ;; ys <- map_M f l' ;; ret (y :: ys)
  end.

(** The rows [list_jobs] selects for its page. *)
Definition list_jobs_rows (page limit : Z) (status : option string)
    (rows : list TranscriptionJob) : list TranscriptionJob :=
  let query := if truthy status
               then filter (has_status (str_or status "")) rows
               else rows in
  sql_limit limit
    (sql_offset ((page - 1) * limit) (order_by_desc created_at query)).

Definition list_jobs `{Externals} (page limit : Z) (status : option string)
  : M TranscriptionJobListResponse :=
  w <- get_world ;;
  let query := if truthy status
               then filter (has_status (str_or status "")) (db w)
               else db w in
  let total := Z.of_nat (length query) in
  jobs <- map_M _job_to_response (list_jobs_rows page limit status (db w)) ;;
  ret (mkListResponse jobs total page limit).

Definition get_job `{Externals} (job_id : string) : M Response.t :=
  job <- query_by_id job_id ;;
  match job with
  | None => raise (http_exception "404" ("Job not found: " ++ job_id))
  | Some job => _job_to_response job
  end.

Definition delete_job (job_id : string) : M string :=
  job <- query_by_id job_id ;;
  match job with
  | None => raise (http_exception "404" ("Job not found: " ++ job_id))
  | Some job =>
      there <- os_path_exists (audio_path job) ;;
      (if negb (String.eqb (audio_path job) "") && there then
         try_except
           (os_remove (audio_path job))
           (fun e => logger WARNING
                       ("Failed to delete audio file: " ++ exc_str e))
       else ret tt) ;;
      modify (fun w => with_db w
                (filter (fun r => negb (has_id (id job) r)) (db w))) ;;
      logger INFO ("Deleted job: " ++ job_id) ;;
      ret ("Job " ++ job_id ++ " deleted")
  end.

(** ** The server as a transition system

    The worker thread alternates the two calls of the loop body; [claimed]
    is the local variable [job] of [_run] between them.  API handlers that
    create jobs run at any time. *)

Record Sys : Type := mkSys {
  world : World;
  claimed : option TranscriptionJob
}.

Inductive step `{Externals} : Sys -> Sys -> Prop :=
| step_create : forall s upload_dir job_id file_filename upload form,
    step s (mkSys (snd (create_job upload_dir job_id file_filename upload form
                          (world s)))
                  (claimed s))
| step_claim : forall s,
    claimed s = None ->
    step s (mkSys (snd (_get_next_job (world s)))
                  (match fst (_get_next_job (world s)) with
                   | Ok job => job
                   | Raise _ => None
                   end))
| step_process : forall s job,
    claimed s = Some job ->
    step s (mkSys (snd (_process_job job (world s))) None).

Definition initial (s : Sys) : Prop := db (world s) = [] /\ claimed s = None.

Inductive reachable `{Externals} : Sys -> Prop :=
| reach_init : forall s, initial s -> reachable s
| reach_step : forall s s', reachable s -> step s s' -> reachable s'.

(** The engine and the event loop leave the table, the files and the event
    trace alone (they may take time and see [stop]). *)
Definition quiet {A} (c : M A) : Prop :=
  forall w, db (snd (c w)) = db w /\ files (snd (c w)) = files w /\
            undeletable (snd (c w)) = undeletable w /\
            events (snd (c w)) = events w.

Definition engine_quiet `{Externals} : Prop :=
  quiet new_event_loop /\
  (forall m, quiet (load_model_instance m)) /\
  (forall kw, quiet (transcribe kw)).

(** The status changes the state machine allows for a row. *)
Definition allowed_transition (old new : string) : Prop :=
  new = old \/
  (old = "pending" /\ new = "processing") \/
  (old = "processing" /\ new = "completed") \/
  (old = "processing" /\ new = "failed").

(** The paths whose deletion was requested in a trace, in order. *)
Definition all_cleanup_requests (evs : list Event) : list string :=
  flat_map (fun e => match e with EvCleanup p => [p] | _ => [] end) evs.

Definition terminal (s : string) : bool :=
  String.eqb s "completed" || String.eqb s "failed".

(** The world [_process_job] leaves behind when the row is still there:
    from the world [w1] in which the engine has finished, log [ev], commit
    the assignment [f] to the row, clean up, and clear the current job. *)
Definition finish (f : TranscriptionJob -> TranscriptionJob) (ev : Event)
    (row : TranscriptionJob) (w1 : World) : World :=
  with_current
    (snd (_cleanup_audio_file (audio_path row)
            (with_db (with_events w1 (events w1 ++ [ev]))
               (update_rows (id row) f (utc_now w1) (db w1)))))
    None.

(** The two writes a finished job can receive. *)
Inductive terminal_write `{Externals}
  : (TranscriptionJob -> TranscriptionJob) -> Event -> Prop :=
| write_success : forall completed_at processing_time result msg,
    terminal_write (assign_completed completed_at processing_time result)
                   (EvLog INFO msg)
| write_failure : forall elapsed e msg,
    terminal_write (assign_failed elapsed e) (EvLog ERROR msg).

(** The invariants of the data model, row by row. *)
Definition row_consistent (r : TranscriptionJob) : Prop :=
  (transcript r <> None <-> status r = "completed") /\
  (error_message r <> None <-> status r = "failed").

(** What every reachable state satisfies: the primary key, the row
    invariants, and that the job the worker holds is in [processing]. *)
Definition sys_invariant (s : Sys) : Prop :=
  NoDup (map id (db (world s))) /\
  (forall r, In r (db (world s)) -> row_consistent r) /\
  (forall job, claimed s = Some job ->
     exists row, find (has_id (id job)) (db (world s)) = Some row /\
                 status row = "processing").

(** Between two states of the table, every row keeps its place in the state
    machine or makes one allowed move, and new rows start as pending. *)
Definition statuses_move_forward (rows rows' : list TranscriptionJob) : Prop :=
  (forall k row, find (has_id k) rows = Some row ->
     exists row', find (has_id k) rows' = Some row' /\
                  allowed_transition (status row) (status row')) /\
  (forall k row', find (has_id k) rows = None ->
     find (has_id k) rows' = Some row' -> status row' = "pending").



(** ** Claims issued by several sessions

    [_get_next_job] is two statements of its session: the SELECT of
    lines 96-101 and the UPDATE sent by [db.commit()] on line 105, which
    names the row by primary key only.  A schedule runs those statements
    of several callers in any order. *)

Definition claim_select (rows : list TranscriptionJob)
  : option TranscriptionJob :=
  hd_error (order_by_asc created_at (filter (has_status "pending") rows)).

Definition claim_update (job : TranscriptionJob) (now : Z)
    (rows : list TranscriptionJob) : list TranscriptionJob :=
  update_rows (id job) (set_status "processing") now rows.

Inductive ClaimOp : Type :=
| OpSelect (caller : nat)
| OpCommit (caller : nat).

Record ClaimState : Type := mkClaimState {
  cs_rows : list TranscriptionJob;
  cs_selected : list (nat * TranscriptionJob);  (* caller's local [job] *)
  cs_returned : list (nat * TranscriptionJob)   (* what each caller returned *)
}.

Fixpoint assoc_nat {A} (n : nat) (l : list (nat * A)) : option A :=
  match l with
  | [] => None
  | (m, a) :: l' => if Nat.eqb m n then Some a else assoc_nat n l'
  end.

Definition claim_op (now : Z) (op : ClaimOp) (s : ClaimState) : ClaimState :=
  match op with
  | OpSelect c =>
      match claim_select (cs_rows s) with
      | Some job => mkClaimState (cs_rows s) ((c, job) :: cs_selected s)
                      (cs_returned s)
      | None => s
      end
  | OpCommit c =>
      match assoc_nat c (cs_selected s) with
      | Some job =>
          let rows := claim_update job now (cs_rows s) in
          match find (has_id (id job)) rows with
          | Some row => mkClaimState rows (cs_selected s)
                          ((c, row) :: cs_returned s)
          | None => mkClaimState rows (cs_selected s) (cs_returned s)
          end
      | None => s
      end
  end.

Definition run_claims (now : Z) (ops : list ClaimOp) (s : ClaimState)
  : ClaimState :=
  fold_left (fun s op => claim_op now op s) ops s.

(** Callers that run one after the other: each one's SELECT is followed at
    once by its own UPDATE. *)
Definition serial_claims (callers : list nat) : list ClaimOp :=
  flat_map (fun c => [OpSelect c; OpCommit c]) callers.

Definition claim_start (rows : list TranscriptionJob) : ClaimState :=
  mkClaimState rows [] [].

Definition returned_ids (s : ClaimState) : list string :=
  map (fun cr => id (snd cr)) (cs_returned s).

(** No row is handed to two callers. *)
Definition no_row_claimed_twice (s : ClaimState) : Prop :=
  NoDup (returned_ids s).

(** What serial claims preserve: a row that was handed out is not pending. *)
Definition claimed_not_pending (s : ClaimState) : Prop :=
  forall k r, In k (returned_ids s) -> In r (cs_rows s) -> id r = k ->
              status r <> "pending".

(** ** worker.py: the methods other threads call

    [_thread] is [None] or a thread, of which the methods only ask whether
    it is alive. *)
Module Worker.

Definition is_running (_thread : option bool) (w : World) : bool :=
  _running w && match _thread with
                | Some alive => alive
                | None => false
                end.

Definition get_status (_thread : option bool) (w : World) : string :=
  if negb (is_running _thread w) then "stopped"
  else if truthy (_current_job_id w)
       then "processing:" ++ str_or (_current_job_id w) ""
       else "idle".

(** Returns the new value of [self._thread]. *)
Definition start (_thread : option bool) : M (option bool) :=
  match _thread with
  | Some true =>
      logger WARNING "Worker is already running" ;;
      ret _thread
  | _ =>
      modify (fun w => with_running w true) ;;
      logger INFO "Transcription worker started" ;;
      ret (Some true)
  end.

(** [join] waits at most five seconds; the handle is dropped whether or not
    the thread has ended. *)
Definition stop (_thread : option bool) : M (option bool) :=
  modify (fun w => with_running w false) ;;
  logger INFO "Transcription worker stopped" ;;
  ret None.

End Worker.

(** ** Runs of the worker with nothing else going on *)

(** At most [n] claims in a row: the jobs handed out, oldest claim first. *)
Fixpoint drain (n : nat) (w : World) : list TranscriptionJob * World :=
  match n with
  | O => ([], w)
  | S n' =>
      match _get_next_job w with
      | (Ok (Some job), w') =>
          let (rest, w'') := drain n' w' in (job :: rest, w'')
      | (_, w') => ([], w')
      end
  end.

(** An engine that answers [result] at once, and one that raises [e]. *)
Definition engine_returns `{Externals} (result : PyDict) : Prop :=
  (forall w, new_event_loop w = (Ok tt, w)) /\
  (forall m w, exists mi, load_model_instance m w = (Ok mi, w)) /\
  (forall kw w, transcribe kw w = (Ok result, w)).

Definition engine_raises `{Externals} (e : PyExc) : Prop :=
  (forall w, new_event_loop w = (Ok tt, w)) /\
  (forall m w, exists mi, load_model_instance m w = (Ok mi, w)) /\
  (forall kw w, transcribe kw w = (Raise e, w)).

(** The columns fixed when a job is created. *)
Definition same_creation_columns (a b : TranscriptionJob) : Prop :=
  id a = id b /\ audio_path a = audio_path b /\
  original_filename a = original_filename b /\
  model a = model b /\ language a = language b /\ diarize a = diarize b /\
  min_speakers a = min_speakers b /\ max_speakers a = max_speakers b /\
  chunk_size a = chunk_size b /\ vad_onset a = vad_onset b /\
  vad_offset a = vad_offset b /\ created_at a = created_at b.

Definition pending_count (rows : list TranscriptionJob) : nat :=
  length (filter (has_status "pending") rows).

(** The class of the exception a call ended with, if it raised. *)
Definition exc_type_of {A} (r : Result A) : option string :=
  match r with
  | Ok _ => None
  | Raise e => Some (exc_type e)
  end.

(** ** What [create_job] builds *)



(** The response for a job of which no transcript is read. *)
Definition response_without_transcript (job : TranscriptionJob)
  : Response.t :=
  Response.make (id job) (status job) (original_filename job)
    (model job) (language job) (diarize job)
    (min_speakers job) (max_speakers job) (chunk_size job)
    None None None
    (duration job) (processing_time job) (error_message job)
    (created_at job) (updated_at job) (completed_at job).

(** ** Sample data *)

Definition sample_job (k : string) (st : string) (created : Z)
  : TranscriptionJob :=
  mkJob k st ("/uploads/" ++ k ++ ".wav") (Some "talk.wav") None None
    "small" None false None None 15 (1 # 2) (363 # 1000) None None
    created created None.

Definition sample_world (rows : list TranscriptionJob) : World :=
  mkWorld rows (map audio_path rows) [] [] 0%Q 100 true None.

Definition sample_result : PyDict :=
  [ ("text", JStr "hello");
    ("segments", JArr [JObj [("start", JNum 0); ("end", JNum 1);
                             ("text", JStr "hello")]]);
    ("language", JStr "en");
    ("duration", JNum (12 # 10)) ].

(** A decoder that knows one document, enough to tell a transcript that
    parses from one that does not. *)
Definition sample_loads (s : string) : option JSON :=
  if String.eqb s "{}" then Some (JObj []) else None.

Definition sample_validate_float (v : JSON) : option Q :=
  match v with JNum q => Some q | _ => None end.
Definition sample_validate_str (v : JSON) : option string :=
  match v with JStr s => Some s | _ => None end.

(** An engine that returns [sample_result]. *)
Definition engine_ok : Externals :=
  {| ModelInstance := string;
     new_event_loop := ret tt;
     load_model_instance := fun m => ret m;
     transcribe := fun _ => ret sample_result;
     json_dumps := fun _ => "{}";
     json_loads := sample_loads;
     format_2f := fun _ => "0.00";
     validate_float := sample_validate_float;
     validate_str := sample_validate_str |}.

(** An engine that fails. *)
Definition engine_timeout : Externals :=
  {| ModelInstance := string;
     new_event_loop := ret tt;
     load_model_instance := fun m => ret m;
     transcribe := fun _ => raise (mkExc "RuntimeError" "engine timeout");
     json_dumps := fun _ => "{}";
     json_loads := sample_loads;
     format_2f := fun _ => "0.00";
     validate_float := sample_validate_float;
     validate_str := sample_validate_str |}.


Definition sample_form : JobForm :=
  mkForm "small" None false None None 15 (1 # 2) (363 # 1000).

(** A run of the system: empty, J1 created, J1 claimed, J1 processed. *)
Definition state0 : Sys := mkSys (sample_world []) None.

Definition state1 `{Externals} : Sys :=
  mkSys (snd (create_job "/uploads" "J1" (Some "talk.wav") (Ok "RIFF")
                sample_form (world state0)))
        (claimed state0).

Definition state2 `{Externals} : Sys :=
  mkSys (snd (_get_next_job (world state1)))
        (match fst (_get_next_job (world state1)) with
         | Ok job => job
         | Raise _ => None
         end).

Definition claimed_J1 : TranscriptionJob :=
  mkJob "J1" "processing" "/uploads/J1.wav" (Some "talk.wav") None None
    "small" None false None None 15 (1 # 2) (363 # 1000) None None
    100 100 None.

Definition state3 `{Externals} : Sys :=
  mkSys (snd (_process_job claimed_J1 (world state2))) None.

(** J1 as the engine that returns [sample_result] leaves it. *)
Definition completed_J1 : TranscriptionJob :=
  mkJob "J1" "completed" "/uploads/J1.wav" (Some "talk.wav") (Some "{}") None
    "small" None false None None 15 (1 # 2) (363 # 1000)
    (Some (12 # 10)) (Some (0 - 0)%Q) 100 100 (Some 100).

(** Three completed and two failed jobs. *)
Definition five_jobs : list TranscriptionJob :=
  [ sample_job "a" "completed" 1; sample_job "b" "failed" 2;
    sample_job "c" "completed" 3; sample_job "d" "failed" 4;
    sample_job "e" "completed" 5 ].


(** A completed job whose stored transcript decodes, but not to an object. *)
Definition listy_job : TranscriptionJob :=
  mkJob "J8" "completed" "/uploads/J8.wav" (Some "talk.wav")
    (Some "[]") None
    "small" None false None None 15 (1 # 2) (363 # 1000)
    (Some (12 # 10)) (Some (3 # 1)) 100 120 (Some 120).

(** A decoder that knows the empty list. *)
Definition engine_lists : Externals :=
  {| ModelInstance := string;
     new_event_loop := ret tt;
     load_model_instance := fun m => ret m;
     transcribe := fun _ => ret sample_result;
     json_dumps := fun _ => "[]";
     json_loads := fun s => if String.eqb s "[]" then Some (JArr []) else None;
     format_2f := fun _ => "0.00";
     validate_float := sample_validate_float;
     validate_str := sample_validate_str |}.

(** A completed job whose stored transcript does not parse. *)
Definition garbled_job : TranscriptionJob :=
  mkJob "J9" "completed" "/uploads/J9.wav" (Some "talk.wav")
    (Some "{not json") None
    "small" None false None None 15 (1 # 2) (363 # 1000)
    (Some (12 # 10)) (Some (3 # 1)) 100 120 (Some 120).


(** * Facts about the store *)

#[local] Arguments String.append : simpl never.
#[local] Arguments String.eqb : simpl never.

(** Unfold the field updates of a world and project. *)
Ltac world_simpl :=
  unfold with_events, with_files, with_db, with_current, with_running in *;
  cbn [db files undeletable events time_now utc_now _running _current_job_id
       fst snd] in *.

Lemma has_id_true (k : string) (r : TranscriptionJob) :
  has_id k r = true <-> id r = k.
Proof. unfold has_id. apply String.eqb_eq. Qed.

Lemma has_status_true (s : string) (r : TranscriptionJob) :
  has_status s r = true <-> status r = s.
Proof. unfold has_status. apply String.eqb_eq. Qed.

Lemma insert_asc_In {A} (key : A -> Z) (x y : A) (l : list A) :
  In y (insert_asc key x l) <-> y = x \/ In y l.
Proof.
  induction l as [|z l IH]; simpl.
  - intuition.
  - destruct (key x <=? key z); simpl; rewrite ?IH; intuition.
Qed.

Lemma order_by_asc_In {A} (key : A -> Z) (l : list A) (x : A) :
  In x (order_by_asc key l) <-> In x l.
Proof.
  induction l as [|z l IH]; simpl.
  - tauto.
  - rewrite insert_asc_In, IH. intuition.
Qed.

Lemma order_by_asc_nil {A} (key : A -> Z) (l : list A) :
  order_by_asc key l = [] -> l = [].
Proof.
  destruct l as [|z l]; trivial. intros E.
  assert (In z (order_by_asc key (z :: l))) as I
      by (apply order_by_asc_In; now left).
  rewrite E in I. destruct I.
Qed.

(** The first row of [ORDER BY key ASC] has the least key. *)
Lemma order_by_asc_head_least {A} (key : A -> Z) (l : list A) (m : A) :
  hd_error (order_by_asc key l) = Some m ->
  In m l /\ forall x, In x l -> key m <= key x.
Proof.
  revert m. induction l as [|z l IH]; simpl; intros m E.
  - discriminate.
  - destruct (order_by_asc key l) as [|y t] eqn:S.
    + apply order_by_asc_nil in S. subst l. simpl in E.
      injection E as <-. split; [now left|].
      intros x [<-|[]]. lia.
    + destruct (IH y eq_refl) as [Iy Ly]. simpl in E.
      destruct (key z <=? key y) eqn:C; simpl in E; injection E as <-.
      * apply Z.leb_le in C. split; [now left|].
        intros x [<-|Ix]; [lia|]. specialize (Ly x Ix). lia.
      * apply Z.leb_gt in C. split; [now right|].
        intros x [<-|Ix]; [lia|]. now apply Ly.
Qed.

Lemma claim_select_some (rows : list TranscriptionJob) (job : TranscriptionJob) :
  claim_select rows = Some job ->
  In job rows /\ status job = "pending" /\
  forall r, In r rows -> status r = "pending" ->
            created_at job <= created_at r.
Proof.
  unfold claim_select. intros E.
  apply order_by_asc_head_least in E as [I L].
  apply filter_In in I as [I P]. apply has_status_true in P.
  repeat split; trivial.
  intros r Ir Pr. apply L. apply filter_In. split; trivial.
  now apply has_status_true.
Qed.

Lemma claim_select_none (rows : list TranscriptionJob) :
  claim_select rows = None ->
  forall r, In r rows -> status r <> "pending".
Proof.
  unfold claim_select. intros E r Ir Pr.
  destruct (order_by_asc created_at (filter (has_status "pending") rows))
    as [|y t] eqn:S; [|discriminate].
  apply order_by_asc_nil in S.
  assert (In r (filter (has_status "pending") rows)) as F
      by (apply filter_In; split; trivial; now apply has_status_true).
  rewrite S in F. destruct F.
Qed.

(** The primary key: a row is found by its [id]. *)
Lemma nodup_id_inj (rows : list TranscriptionJob) (a b : TranscriptionJob) :
  NoDup (map id rows) -> In a rows -> In b rows -> id a = id b -> a = b.
Proof.
  induction rows as [|r rows IH]; simpl; intros N Ia Ib E.
  - destruct Ia.
  - inversion N as [|? ? Hnot N']; subst.
    destruct Ia as [<-|Ia], Ib as [<-|Ib]; trivial.
    + exfalso. apply Hnot. rewrite E. now apply in_map.
    + exfalso. apply Hnot. rewrite <- E. now apply in_map.
    + now apply IH.
Qed.

Lemma find_has_id_In (k : string) (rows : list TranscriptionJob)
    (r : TranscriptionJob) :
  find (has_id k) rows = Some r -> In r rows /\ id r = k.
Proof.
  intros F. apply find_some in F as [I E]. split; trivial.
  now apply has_id_true.
Qed.

Lemma find_has_id_nodup (rows : list TranscriptionJob) (r : TranscriptionJob) :
  NoDup (map id rows) -> In r rows -> find (has_id (id r)) rows = Some r.
Proof.
  intros N I. destruct (find (has_id (id r)) rows) as [r'|] eqn:F.
  - apply find_has_id_In in F as [I' E]. f_equal.
    now apply (nodup_id_inj rows).
  - exfalso. apply (find_none _ _ F) in I.
    assert (has_id (id r) r = true) by now apply has_id_true. congruence.
Qed.

Lemma find_update_rows (k k' : string)
    (f : TranscriptionJob -> TranscriptionJob) (now : Z)
    (rows : list TranscriptionJob) :
  (forall r, id (f r) = id r) ->
  find (has_id k') (update_rows k f now rows) =
  if String.eqb k' k
  then option_map (fun r => set_updated_at now (f r)) (find (has_id k) rows)
  else find (has_id k') rows.
Proof.
  intros Hf. induction rows as [|r rows IH]; simpl.
  - now destruct (String.eqb k' k).
  - assert (forall k0, has_id k0 (set_updated_at now (f r)) = has_id k0 r)
      as Hid by (intros k0; unfold has_id; simpl; now rewrite Hf).
    destruct (has_id k r) eqn:Ek.
    + rewrite Hid. destruct (String.eqb k' k) eqn:Ekk.
      * apply String.eqb_eq in Ekk. subst k'. rewrite Ek. reflexivity.
      * assert (has_id k' r = false) as Hk'.
        { apply has_id_true in Ek. unfold has_id.
          now rewrite Ek, String.eqb_sym. }
        rewrite Hk', IH, ?Ekk. reflexivity.
    + destruct (String.eqb k' k) eqn:Ekk.
      * apply String.eqb_eq in Ekk. subst k'.
        rewrite Ek, IH, ?String.eqb_refl. reflexivity.
      * destruct (has_id k' r); trivial.
Qed.

Lemma update_rows_ids (k : string) (f : TranscriptionJob -> TranscriptionJob)
    (now : Z) (rows : list TranscriptionJob) :
  (forall r, id (f r) = id r) ->
  map id (update_rows k f now rows) = map id rows.
Proof.
  intros Hf. unfold update_rows. rewrite map_map. apply map_ext.
  intros r. destruct (has_id k r); simpl; auto.
Qed.

(** Under the primary key, the UPDATE rewrites exactly the row it names. *)
Lemma update_rows_nodup (job : TranscriptionJob)
    (f : TranscriptionJob -> TranscriptionJob) (now : Z)
    (rows : list TranscriptionJob) :
  NoDup (map id rows) -> In job rows ->
  update_rows (id job) f now rows =
  map (fun r => if has_id (id job) r then set_updated_at now (f job) else r)
      rows.
Proof.
  intros N I. unfold update_rows. apply map_ext_in. intros r Ir.
  destruct (has_id (id job) r) eqn:E; trivial.
  apply has_id_true in E.
  now rewrite (nodup_id_inj rows r job N Ir I E).
Qed.

(** [_get_next_job], statement by statement. *)
Lemma get_next_job_eq (w : World) :
  _get_next_job w =
  match claim_select (db w) with
  | None => (Ok None, w)
  | Some job =>
      let w1 := with_db w (claim_update job (utc_now w) (db w)) in
      match find (has_id (id job)) (db w1) with
      | Some row =>
          (Ok (Some row),
           with_events w1
             (events w1 ++ [EvLog INFO ("Picked up job: " ++ id row)]))
      | None =>
          (Ok None,
           with_events w1
             (events w1 ++
                [EvLog ERROR
                   "Error getting next job: Could not refresh instance"]))
      end
  end.
Proof.
  unfold _get_next_job, try_finally, try_except, bind, query_first_asc,
    claim_select.
  destruct (hd_error _) as [job|]; simpl.
  - unfold db_refresh, claim_update. simpl.
    destruct (find _ _) as [row|]; reflexivity.
  - destruct w; reflexivity.
Qed.

Lemma get_next_job_claimed (w : World) (job : TranscriptionJob) :
  NoDup (map id (db w)) ->
  claim_select (db w) = Some job ->
  let row := set_updated_at (utc_now w) (set_status "processing" job) in
  let rows := map (fun r => if has_id (id job) r then row else r) (db w) in
  _get_next_job w =
  (Ok (Some row),
   with_events (with_db w rows)
     (events w ++ [EvLog INFO ("Picked up job: " ++ id job)])).
Proof.
  intros N S. rewrite get_next_job_eq, S. cbv zeta.
  destruct (claim_select_some _ _ S) as [I _].
  unfold with_db at 1. cbn [db].
  unfold claim_update. rewrite find_update_rows by reflexivity.
  rewrite String.eqb_refl, (find_has_id_nodup _ _ N I). cbn [option_map].
  rewrite (update_rows_nodup job _ _ _ N I). reflexivity.
Qed.

Lemma untouched_row_stays (job row r : TranscriptionJob)
    (rows : list TranscriptionJob) :
  In r rows -> id r <> id job ->
  In r (map (fun r => if has_id (id job) r then row else r) rows).
Proof.
  intros I N. apply in_map_iff. exists r. split; trivial.
  destruct (has_id (id job) r) eqn:E; trivial.
  apply has_id_true in E. contradiction.
Qed.

(** * The claim operation *)

(** C1.  [_get_next_job] (the claim operation of the store) picks, among the
    rows whose status is pending, one with the least [created_at], sets its
    status to processing and returns the updated row; when no row is pending
    it returns nothing and leaves the world as it is.  Hence, with J3 and J4
    both pending and J3 created first, the claim never takes J4: it takes J3,
    or leaves both pending for the next claim. *)
Theorem get_next_job_claims_oldest_pending (w : World) :
  NoDup (map id (db w)) ->
  ((forall r, In r (db w) -> status r <> "pending") ->
   _get_next_job w = (Ok None, w)) /\
  (forall p, In p (db w) -> status p = "pending" ->
   exists job,
     In job (db w) /\ status job = "pending" /\
     (forall r, In r (db w) -> status r = "pending" ->
                created_at job <= created_at r) /\
     let row := set_updated_at (utc_now w) (set_status "processing" job) in
     status row = "processing" /\
     fst (_get_next_job w) = Ok (Some row) /\
     db (snd (_get_next_job w)) =
       map (fun r => if has_id (id job) r then row else r) (db w)) /\
  (forall j3 j4,
     In j3 (db w) -> In j4 (db w) ->
     status j3 = "pending" -> status j4 = "pending" ->
     created_at j3 < created_at j4 ->
     exists row,
       fst (_get_next_job w) = Ok (Some row) /\ id row <> id j4 /\
       In j4 (db (snd (_get_next_job w))) /\
       (id row = id j3 \/ In j3 (db (snd (_get_next_job w))))).
Proof.
  intros N.
  assert (forall p, In p (db w) -> status p = "pending" ->
          exists job, claim_select (db w) = Some job) as Hsome.
  { intros p Ip Pp. destruct (claim_select (db w)) as [job|] eqn:S.
    - now exists job.
    - exfalso. exact (claim_select_none _ S p Ip Pp). }
  split; [|split].
  - intros Hnone. rewrite get_next_job_eq.
    destruct (claim_select (db w)) as [job|] eqn:S; trivial.
    destruct (claim_select_some _ _ S) as (I & P & _).
    exfalso. exact (Hnone job I P).
  - intros p Ip Pp. destruct (Hsome p Ip Pp) as [job S].
    destruct (claim_select_some _ _ S) as (I & P & L).
    exists job. repeat split; trivial;
      rewrite (get_next_job_claimed w job N S); reflexivity.
  - intros j3 j4 I3 I4 P3 P4 Lt. destruct (Hsome j3 I3 P3) as [job S].
    destruct (claim_select_some _ _ S) as (I & P & L).
    rewrite (get_next_job_claimed w job N S). cbn [fst snd].
    assert (id j4 <> id job) as N4.
    { intros E. apply (nodup_id_inj _ _ _ N I4 I) in E. subst j4.
      specialize (L j3 I3 P3). lia. }
    eexists. split; [reflexivity|]. split; [|split].
    + simpl. congruence.
    + cbn [db with_events with_db]. now apply untouched_row_stays.
    + destruct (String.eqb (id j3) (id job)) eqn:E3.
      * apply String.eqb_eq in E3. left. simpl. congruence.
      * apply String.eqb_neq in E3. right.
        cbn [db with_events with_db]. now apply untouched_row_stays.
Qed.

Lemma get_next_job_claims_oldest_pending_witness :
  let j3 := sample_job "J3" "pending" 10 in
  let j4 := sample_job "J4" "pending" 20 in
  let w := sample_world [j4; j3] in
  NoDup (map id (db w)) /\
  (exists row,
     fst (_get_next_job w) = Ok (Some row) /\ id row <> id j4 /\
     In j4 (db (snd (_get_next_job w))) /\
     (id row = id j3 \/ In j3 (db (snd (_get_next_job w))))) /\
  _get_next_job (sample_world []) = (Ok None, sample_world []).
Proof.
  intros j3 j4 w.
  assert (NoDup (map id (db w))) as N.
  { simpl. repeat constructor; simpl; intuition discriminate. }
  split; [exact N|]. split.
  - apply (get_next_job_claims_oldest_pending w N); simpl; auto.
    unfold created_at, j3, j4, sample_job. lia.
  - apply (get_next_job_claims_oldest_pending (sample_world [])).
    + simpl. constructor.
    + simpl. intros r [].
Defined.

(** [_get_next_job] is its SELECT followed by its UPDATE. *)
Lemma get_next_job_is_select_then_commit (w : World) (c : nat) :
  let s := run_claims (utc_now w) [OpSelect c; OpCommit c]
             (claim_start (db w)) in
  db (snd (_get_next_job w)) = cs_rows s /\
  fst (_get_next_job w) = Ok (assoc_nat c (cs_returned s)).
Proof.
  rewrite get_next_job_eq. unfold run_claims, claim_start. simpl.
  destruct (claim_select (db w)) as [job|]; simpl.
  - rewrite Nat.eqb_refl.
    destruct (find (has_id (id job)) (claim_update job (utc_now w) (db w)));
      simpl; rewrite ?Nat.eqb_refl; auto.
  - auto.
Qed.

Lemma claim_update_row (job : TranscriptionJob) (now : Z)
    (rows : list TranscriptionJob) (r : TranscriptionJob) :
  In r (claim_update job now rows) ->
  (id r = id job /\ status r = "processing") \/
  (id r <> id job /\ In r rows).
Proof.
  unfold claim_update, update_rows. intros I.
  apply in_map_iff in I as (r0 & E & I0).
  destruct (has_id (id job) r0) eqn:H.
  - apply has_id_true in H. left. subst r. simpl. auto.
  - right. subst r0. split; trivial. intros E.
    apply has_id_true in E. congruence.
Qed.

Lemma serial_claim_step (now : Z) (c : nat) (s : ClaimState) :
  assoc_nat c (cs_selected s) = None ->
  claimed_not_pending s -> no_row_claimed_twice s ->
  let s' := run_claims now [OpSelect c; OpCommit c] s in
  claimed_not_pending s' /\ no_row_claimed_twice s' /\
  (forall c', c' <> c -> assoc_nat c' (cs_selected s) = None ->
              assoc_nat c' (cs_selected s') = None).
Proof.
  intros Hc Inv Nd. unfold run_claims. simpl.
  destruct (claim_select (cs_rows s)) as [job|] eqn:S; simpl.
  - rewrite Nat.eqb_refl.
    destruct (claim_select_some _ _ S) as (I & P & _).
    assert (~ In (id job) (returned_ids s)) as Fresh.
    { intros Hin. exact (Inv (id job) job Hin I eq_refl P). }
    assert (forall k r, In k (returned_ids s) ->
              In r (claim_update job now (cs_rows s)) -> id r = k ->
              status r <> "pending") as Inv'.
    { intros k r Hk Hr E.
      destruct (claim_update_row _ _ _ _ Hr) as [[_ St]|[_ I0]].
      - rewrite St. discriminate.
      - now apply (Inv k r). }
    destruct (find (has_id (id job)) (claim_update job now (cs_rows s)))
      as [row|] eqn:F; simpl.
    + apply find_has_id_In in F as [Irow Erow].
      split; [|split].
      * intros k r Hk Hr E. unfold returned_ids in Hk. simpl in Hk, Hr.
        destruct Hk as [Hk|Hk]; [|now apply (Inv' k r)].
        destruct (claim_update_row _ _ _ _ Hr) as [[_ St]|[Hne _]].
        -- rewrite St. discriminate.
        -- congruence.
      * unfold no_row_claimed_twice, returned_ids. simpl.
        constructor; [rewrite Erow; exact Fresh | exact Nd].
      * intros c' Hne Hn. apply Nat.eqb_neq in Hne.
        now rewrite Nat.eqb_sym, Hne.
    + split; [|split].
      * exact Inv'.
      * exact Nd.
      * intros c' Hne Hn. apply Nat.eqb_neq in Hne.
        now rewrite Nat.eqb_sym, Hne.
  - rewrite Hc. auto.
Qed.

Lemma serial_claims_invariant (now : Z) (callers : list nat) :
  NoDup callers ->
  forall s,
    (forall c, In c callers -> assoc_nat c (cs_selected s) = None) ->
    claimed_not_pending s -> no_row_claimed_twice s ->
    no_row_claimed_twice (run_claims now (serial_claims callers) s).
Proof.
  induction 1 as [|c callers Hnot Hnd IH]; intros s Hsel Inv Nd.
  - exact Nd.
  - change (serial_claims (c :: callers))
      with (([OpSelect c; OpCommit c] ++ serial_claims callers)%list).
    unfold run_claims. rewrite fold_left_app.
    destruct (serial_claim_step now c s (Hsel c (or_introl eq_refl)) Inv Nd)
      as (Inv' & Nd' & Hsel').
    apply IH; trivial.
    intros c' Ic'. apply Hsel'.
    + intros ->. contradiction.
    + apply Hsel. now right.
Qed.

(** C7, as the code has it.  The claim is a SELECT followed by an UPDATE by
    primary key: [_get_next_job] is exactly that pair, and callers that run
    one after the other are never handed the same row. *)
Theorem serial_claims_never_share_a_row (now : Z) (callers : list nat)
    (rows : list TranscriptionJob) :
  NoDup callers ->
  no_row_claimed_twice
    (run_claims now (serial_claims callers) (claim_start rows)) /\
  forall w c,
    db (snd (_get_next_job w)) =
      cs_rows (run_claims (utc_now w) (serial_claims [c])
                 (claim_start (db w))) /\
    fst (_get_next_job w) =
      Ok (assoc_nat c (cs_returned
            (run_claims (utc_now w) (serial_claims [c])
               (claim_start (db w))))).
Proof.
  intros Hnd. split.
  - apply serial_claims_invariant; trivial.
    + intros k r Hk. destruct Hk.
    + constructor.
  - intros w c. apply get_next_job_is_select_then_commit.
Qed.

Lemma serial_claims_never_share_a_row_witness :
  NoDup [0%nat; 1%nat] /\
  returned_ids
    (run_claims 100 (serial_claims [0%nat; 1%nat])
       (claim_start [sample_job "J1" "pending" 10;
                     sample_job "J2" "pending" 20])) = ["J2"; "J1"] /\
  no_row_claimed_twice
    (run_claims 100 (serial_claims [0%nat; 1%nat])
       (claim_start [sample_job "J1" "pending" 10;
                     sample_job "J2" "pending" 20])).
Proof.
  assert (NoDup [0%nat; 1%nat]) as N.
  { repeat constructor; simpl; intuition discriminate. }
  split; [exact N|]. split; [reflexivity|].
  apply (serial_claims_never_share_a_row 100 [0%nat; 1%nat] _ N).
Defined.

(** C7, as stated, fails: when the SELECTs of two callers both run before
    either UPDATE, both callers are handed the row J1. *)
Lemma interleaved_claims_share_a_row :
  let s := run_claims 100 [OpSelect 0; OpSelect 1; OpCommit 0; OpCommit 1]
             (claim_start [sample_job "J1" "pending" 10]) in
  option_map id (assoc_nat 0 (cs_returned s)) = Some "J1" /\
  option_map id (assoc_nat 1 (cs_returned s)) = Some "J1" /\
  ~ no_row_claimed_twice s.
Proof.
  split; [reflexivity|]. split; [reflexivity|].
  unfold no_row_claimed_twice. simpl. intros N.
  inversion N as [|? ? Hnot _]. apply Hnot. now left.
Qed.

(** * Cleanup of the audio file *)

Lemma all_cleanup_requests_app (a b : list Event) :
  all_cleanup_requests (a ++ b) =
  (all_cleanup_requests a ++ all_cleanup_requests b)%list.
Proof. unfold all_cleanup_requests. apply flat_map_app. Qed.

Lemma existsb_removed (p : string) (l : list string) :
  existsb (String.eqb p) (filter (fun q => negb (String.eqb q p)) l) = false.
Proof.
  induction l as [|q l IH]; simpl; trivial.
  destruct (String.eqb q p) eqn:E; simpl; trivial.
  now rewrite String.eqb_sym, E.
Qed.

(** [_cleanup_audio_file], statement by statement. *)
Lemma cleanup_audio_file_eq (p : string) (w : World) :
  _cleanup_audio_file p w =
  (Ok tt,
   let w0 := with_events w (events w ++ [EvCleanup p]) in
   if negb (String.eqb p "") && exists_file p w then
     if existsb (String.eqb p) (undeletable w) then
       with_events w0
         (events w0 ++
            [EvLog WARNING ("Failed to delete audio file " ++ p ++ ": "
                              ++ "Operation not permitted")])
     else
       with_events
         (with_files w0 (filter (fun q => negb (String.eqb q p)) (files w)))
         (events w0 ++ [EvRemove p; EvLog INFO ("Deleted audio file: " ++ p)])
   else w0).
Proof.
  unfold _cleanup_audio_file, try_except, bind, emit, modify, os_path_exists,
    logger, emit, modify, os_remove, exists_file.
  cbn.
  destruct (negb (String.eqb p "")); cbn; [|reflexivity].
  destruct (existsb (String.eqb p) (files w)); cbn; [|reflexivity].
  destruct (existsb (String.eqb p) (undeletable w)); cbn.
  - reflexivity.
  - world_simpl. now rewrite <- !app_assoc.
Qed.

Lemma cleanup_audio_file_frame (p : string) (w : World) :
  let w' := snd (_cleanup_audio_file p w) in
  fst (_cleanup_audio_file p w) = Ok tt /\
  db w' = db w /\ undeletable w' = undeletable w /\
  time_now w' = time_now w /\ utc_now w' = utc_now w /\
  _running w' = _running w /\ _current_job_id w' = _current_job_id w /\
  all_cleanup_requests (events w') =
    (all_cleanup_requests (events w) ++ [p])%list /\
  (existsb (String.eqb p) (undeletable w) = false -> exists_file p w' = false).
Proof.
  rewrite cleanup_audio_file_eq. cbn [fst snd]. split; trivial.
  unfold exists_file.
  destruct (negb (String.eqb p "")) eqn:Ne; cbn [andb].
  - destruct (existsb (String.eqb p) (files w)) eqn:Ex.
    + destruct (existsb (String.eqb p) (undeletable w)) eqn:U;
        world_simpl; rewrite !all_cleanup_requests_app; cbn;
        rewrite ?app_nil_r; repeat split; trivial; try discriminate.
      intros _. apply existsb_removed.
    + world_simpl. rewrite !all_cleanup_requests_app. cbn.
      repeat split; trivial.
  - world_simpl. rewrite !all_cleanup_requests_app. cbn.
    repeat split; trivial.
Qed.

(** C8.  [_cleanup_audio_file] always returns normally and never touches the
    table: when the path does not exist nothing happens; when the operating
    system refuses the deletion the failure is logged as a warning and
    swallowed, and the file stays. *)
Theorem cleanup_audio_file_never_raises (p : string) (w : World) :
  let w' := snd (_cleanup_audio_file p w) in
  fst (_cleanup_audio_file p w) = Ok tt /\
  db w' = db w /\
  (exists_file p w = false ->
   files w' = files w /\ events w' = (events w ++ [EvCleanup p])%list) /\
  (exists_file p w = true ->
   existsb (String.eqb p) (undeletable w) = true ->
   files w' = files w /\
   events w' =
     (events w ++
        [EvCleanup p;
         EvLog WARNING ("Failed to delete audio file " ++ p ++ ": "
                          ++ "Operation not permitted")])%list) /\
  (exists_file p w = true ->
   existsb (String.eqb p) (undeletable w) = false ->
   exists_file p w' = false).
Proof.
  cbv zeta. rewrite cleanup_audio_file_eq. cbn [fst snd].
  split; trivial. split.
  { destruct (negb (String.eqb p "") && exists_file p w);
      [destruct (existsb (String.eqb p) (undeletable w))|]; reflexivity. }
  split; [|split].
  - intros ->. rewrite andb_false_r. split; reflexivity.
  - intros Ex U. rewrite Ex, U.
    assert (negb (String.eqb p "") = true) as ->
        by (unfold exists_file in Ex; now apply andb_true_iff in Ex).
    cbn. rewrite <- app_assoc. split; reflexivity.
  - intros Ex U. rewrite Ex, U.
    assert (negb (String.eqb p "") = true) as Ne
        by (unfold exists_file in Ex; now apply andb_true_iff in Ex).
    rewrite Ne. cbn. unfold exists_file. cbn.
    now rewrite existsb_removed, andb_false_r.
Qed.

Lemma cleanup_audio_file_never_raises_witness :
  let p := "/uploads/J1.wav" in
  let w := mkWorld [sample_job "J1" "completed" 10] [p] [p] [] 0%Q 100 true
             None in
  exists_file p w = true /\
  existsb (String.eqb p) (undeletable w) = true /\
  fst (_cleanup_audio_file p w) = Ok tt /\
  db (snd (_cleanup_audio_file p w)) = db w /\
  files (snd (_cleanup_audio_file p w)) = files w.
Proof.
  intros p w.
  assert (exists_file p w = true) as Ex by reflexivity.
  assert (existsb (String.eqb p) (undeletable w) = true) as U by reflexivity.
  destruct (cleanup_audio_file_never_raises p w) as (R & D & _ & F & _).
  destruct (F Ex U) as [Ff _]. auto.
Defined.

(** * Processing a claimed job *)

Lemma write_completed_found `{Externals} (job row : TranscriptionJob)
    (t0 : Q) (res : PyDict) (w : World) :
  find (has_id (id job)) (db w) = Some row ->
  write_completed job t0 res w =
  _cleanup_audio_file (audio_path row)
    (with_db
       (with_events w
          (events w ++
             [EvLog INFO ("Job " ++ id row ++ " completed successfully in "
                            ++ format_2f (time_now w - t0)%Q ++ "s")]))
       (update_rows (id row)
          (assign_completed (utc_now w) (time_now w - t0)%Q res)
          (utc_now w) (db w))).
Proof.
  intros F. unfold write_completed, bind, time_time, query_by_id,
    datetime_utcnow, logger, emit, db_commit_update, modify.
  rewrite F. reflexivity.
Qed.

Lemma on_processing_error_found (job row : TranscriptionJob)
    (start_time : option Q) (e : PyExc) (w : World) :
  find (has_id (id job)) (db w) = Some row ->
  on_processing_error (Some job) start_time e w =
  _cleanup_audio_file (audio_path row)
    (with_db
       (with_events w
          (events w ++
             [EvLog ERROR
                ("Error processing job " ++ id job ++ ": " ++ exc_str e)]))
       (update_rows (id row)
          (assign_failed (elapsed_since start_time (time_now w)) e)
          (utc_now w) (db w))).
Proof.
  intros F. unfold on_processing_error, try_except, bind, time_time,
    query_by_id, logger, emit, db_commit_update, modify.
  cbn [db with_events]. rewrite F.
  rewrite !cleanup_audio_file_eq. reflexivity.
Qed.

(** With an engine that keeps to itself, processing a job whose row is in
    the table returns normally and ends in exactly one terminal write
    followed by the cleanup. *)
Lemma process_job_outcome `{Externals} (job row : TranscriptionJob)
    (w : World) :
  engine_quiet ->
  find (has_id (id job)) (db w) = Some row ->
  exists w1 f ev,
    db w1 = db w /\ files w1 = files w /\ undeletable w1 = undeletable w /\
    events w1 = (events w ++ [EvLog INFO ("Processing job " ++ id job)])%list /\
    terminal_write f ev /\
    _process_job job w = (Ok tt, finish f ev row w1).
Proof.
  intros (Qloop & Qload & Qtr) F.
  unfold _process_job, try_finally, bind, attempt, logger, emit, modify,
    db_close, ret, time_time.
  set (w0 := with_events (with_current w (Some (id job)))
               (events (with_current w (Some (id job))) ++
                  [EvLog INFO ("Processing job " ++ id job)])).
  assert (db w0 = db w) as D0 by reflexivity.
  assert (files w0 = files w) as F0 by reflexivity.
  assert (undeletable w0 = undeletable w) as U0 by reflexivity.
  assert (events w0 =
          (events w ++ [EvLog INFO ("Processing job " ++ id job)])%list)
    as E0 by reflexivity.
  destruct (Qloop w0) as (Da & Fa & Ua & Ea).
  destruct (new_event_loop w0) as [[[]|e] wa] eqn:Ra; cbn [fst snd] in *.
  - destruct (Qload (model job) wa) as (Db & Fb & Ub & Eb).
    destruct (load_model_instance (model job) wa) as [[mi|e] wb] eqn:Rb;
      cbn [fst snd] in *.
    + destruct (Qtr (transcribe_kwargs job mi) wb) as (Dc & Fc & Uc & Ec).
      destruct (transcribe (transcribe_kwargs job mi) wb) as [[res|e] wc]
        eqn:Rc; cbn [fst snd] in *.
      * assert (find (has_id (id job)) (db wc) = Some row) as F'
            by (rewrite Dc, Db, Da, D0; exact F).
        rewrite (write_completed_found job row _ _ _ F').
        exists wc. eexists. eexists.
        repeat split; [congruence .. | | ].
        -- apply write_success.
        -- rewrite cleanup_audio_file_eq. cbn [fst snd].
           unfold finish. rewrite cleanup_audio_file_eq. reflexivity.
      * assert (find (has_id (id job)) (db wc) = Some row) as F'
            by (rewrite Dc, Db, Da, D0; exact F).
        rewrite (on_processing_error_found job row _ _ _ F').
        exists wc. eexists. eexists.
        repeat split; [congruence .. | | ].
        -- apply write_failure.
        -- rewrite cleanup_audio_file_eq. cbn [fst snd].
           unfold finish. rewrite cleanup_audio_file_eq.
           destruct (find_has_id_In _ _ _ F') as [_ ->]. reflexivity.
    + assert (find (has_id (id job)) (db wb) = Some row) as F'
          by (rewrite Db, Da, D0; exact F).
      rewrite (on_processing_error_found job row _ _ _ F').
      exists wb. eexists. eexists.
      repeat split; [congruence .. | | ].
      * apply write_failure.
      * rewrite cleanup_audio_file_eq. cbn [fst snd].
        unfold finish. rewrite cleanup_audio_file_eq. reflexivity.
  - assert (find (has_id (id job)) (db wa) = Some row) as F'
        by (rewrite Da, D0; exact F).
    rewrite (on_processing_error_found job row _ _ _ F').
    exists wa. eexists. eexists.
    repeat split; [congruence .. | | ].
    + apply write_failure.
    + rewrite cleanup_audio_file_eq. cbn [fst snd].
      unfold finish. rewrite cleanup_audio_file_eq. reflexivity.
Qed.

Lemma terminal_write_row `{Externals}
    (f : TranscriptionJob -> TranscriptionJob) (ev : Event) :
  terminal_write f ev ->
  all_cleanup_requests [ev] = [] /\
  forall r,
    id (f r) = id r /\ audio_path (f r) = audio_path r /\
    created_at (f r) = created_at r /\
    ((status (f r) = "completed" /\ transcript (f r) <> None /\
      error_message (f r) = error_message r) \/
     (status (f r) = "failed" /\ error_message (f r) <> None /\
      transcript (f r) = transcript r /\
      completed_at (f r) = completed_at r)).
Proof.
  intros [ca pt res msg|el e msg]; (split; [reflexivity|]); intros r;
    repeat split; trivial.
  - left. repeat split; trivial. discriminate.
  - right. repeat split; trivial. discriminate.
Qed.

Lemma finish_frame (f : TranscriptionJob -> TranscriptionJob) (ev : Event)
    (row : TranscriptionJob) (w1 : World) :
  let w' := finish f ev row w1 in
  db w' = update_rows (id row) f (utc_now w1) (db w1) /\
  all_cleanup_requests (events w') =
    (all_cleanup_requests (events w1) ++ all_cleanup_requests [ev]
       ++ [audio_path row])%list /\
  (existsb (String.eqb (audio_path row)) (undeletable w1) = false ->
   exists_file (audio_path row) w' = false).
Proof.
  unfold finish.
  set (w2 := with_db (with_events w1 (events w1 ++ [ev]))
               (update_rows (id row) f (utc_now w1) (db w1))).
  destruct (cleanup_audio_file_frame (audio_path row) w2)
    as (_ & D & _ & _ & _ & _ & _ & C & X).
  cbv zeta. unfold with_current, exists_file in *.
  cbn [db events files undeletable] in *.
  split; [exact D|]. split.
  - rewrite C. unfold w2. cbn [events with_db with_events].
    rewrite all_cleanup_requests_app. now rewrite <- app_assoc.
  - exact X.
Qed.




(** * Deletion of the audio file *)



(** * The state machine of a job *)

Lemma job_to_response_frame `{Externals} (job : TranscriptionJob) (w : World) :
  db (snd (_job_to_response job w)) = db w.
Proof.
  unfold _job_to_response, bind, lift_result, logger, emit, modify, ret, raise.
  destruct (truthy (transcript job)).
  - destruct (json_loads _) as [data|].
    + destruct (read_transcript data) as [[[t sg] dl]|e]; cbn; trivial.
      destruct (validate_optional_str t); cbn; trivial.
      destruct (validate_optional_str dl); reflexivity.
    + cbn. reflexivity.
  - cbn. reflexivity.
Qed.

(** [create_job] leaves the table alone or appends one fresh pending row. *)
Lemma create_job_db `{Externals} (upload_dir job_id : string)
    (file_filename : option string) (upload : Result string) (form : JobForm)
    (w : World) :
  let rows' := db (snd (create_job upload_dir job_id file_filename upload form
                          w)) in
  rows' = db w \/
  exists row,
    rows' = (db w ++ [row])%list /\ status row = "pending" /\
    transcript row = None /\ error_message row = None /\
    ~ In (id row) (map id (db w)).
Proof.
  cbv zeta. unfold create_job.
  set (audio := os_path_join upload_dir _).
  unfold bind. destruct upload as [contents|e].
  - unfold write_file, logger, emit, modify. cbn [fst snd].
    set (w1 := with_events _ _).
    assert (db w1 = db w) as D1
        by (unfold w1; destruct (existsb (String.eqb audio) (files w));
            reflexivity).
    unfold db_insert. cbn [id]. rewrite D1.
    destruct (existsb (has_id job_id) (db w)) eqn:X.
    + left. exact D1.
    + right. eexists. rewrite job_to_response_frame.
      cbn [db with_db with_events].
      split; [reflexivity|]. repeat split.
      cbn [id]. intros I. apply in_map_iff in I as (r & E & I).
      assert (existsb (has_id job_id) (db w) = true) as C
          by (apply existsb_exists; exists r; split; trivial;
              now apply has_id_true).
      congruence.
  - left. reflexivity.
Qed.

Lemma find_app_or {A} (f : A -> bool) (l l' : list A) :
  find f (l ++ l') =
  match find f l with Some x => Some x | None => find f l' end.
Proof.
  induction l as [|x l IH]; cbn; trivial. now destruct (f x).
Qed.

Lemma same_rows_forward (rows : list TranscriptionJob) :
  statuses_move_forward rows rows.
Proof.
  split.
  - intros k row F. exists row. split; trivial. now left.
  - intros k row' N F. congruence.
Qed.

Lemma append_row_forward (rows : list TranscriptionJob)
    (row : TranscriptionJob) :
  status row = "pending" -> statuses_move_forward rows (rows ++ [row]).
Proof.
  intros P. split.
  - intros k r F. exists r. rewrite find_app_or, F. split; trivial. now left.
  - intros k row' N F. rewrite find_app_or, N in F. cbn in F.
    destruct (has_id k row); [|discriminate]. now injection F as <-.
Qed.

Lemma update_rows_forward (k : string)
    (f : TranscriptionJob -> TranscriptionJob) (now : Z)
    (rows : list TranscriptionJob) :
  (forall r, id (f r) = id r) ->
  (forall row, find (has_id k) rows = Some row ->
               allowed_transition (status row) (status (f row))) ->
  statuses_move_forward rows (update_rows k f now rows).
Proof.
  intros Hid Hal. split.
  - intros k' row F. rewrite find_update_rows by exact Hid.
    destruct (String.eqb k' k) eqn:E.
    + apply String.eqb_eq in E. subst k'. rewrite F. cbn [option_map].
      eexists. split; [reflexivity|]. now apply Hal.
    + exists row. split; trivial. now left.
  - intros k' row' N F. rewrite find_update_rows in F by exact Hid.
    destruct (String.eqb k' k) eqn:E.
    + apply String.eqb_eq in E. subst k'. rewrite N in F. discriminate.
    + congruence.
Qed.

Lemma update_rows_consistent (k : string)
    (f : TranscriptionJob -> TranscriptionJob) (now : Z)
    (rows : list TranscriptionJob) :
  NoDup (map id rows) ->
  (forall r, In r rows -> row_consistent r) ->
  (forall row, find (has_id k) rows = Some row -> row_consistent (f row)) ->
  forall r', In r' (update_rows k f now rows) -> row_consistent r'.
Proof.
  intros N C Cf r' I. apply in_map_iff in I as (r & E & I).
  destruct (has_id k r) eqn:Hk.
  - apply has_id_true in Hk. subst k r'.
    exact (Cf r (find_has_id_nodup rows r N I)).
  - subst r'. now apply C.
Qed.

Lemma processing_row_blank (r : TranscriptionJob) :
  row_consistent r -> status r = "processing" ->
  transcript r = None /\ error_message r = None.
Proof.
  intros [[T _] [E _]] S. rewrite S in T, E. split.
  - destruct (transcript r); trivial.
    assert ("processing" = "completed") by (apply T; discriminate).
    discriminate.
  - destruct (error_message r); trivial.
    assert ("processing" = "failed") by (apply E; discriminate).
    discriminate.
Qed.

(** Each step of the system keeps the invariant and moves statuses along
    the state machine only. *)
Lemma step_preserves `{Externals} (s s' : Sys) :
  engine_quiet -> sys_invariant s -> step s s' ->
  sys_invariant s' /\
  statuses_move_forward (db (world s)) (db (world s')).
Proof.
  intros Q (N & C & Cl) St. destruct St as [s ud k fn sv form|s Hc|s job Hc].
  - (* create_job *)
    unfold sys_invariant. cbn [world claimed].
    destruct (create_job_db ud k fn sv form (world s))
      as [E|(row & E & P & T & Em & Fresh)]; cbv zeta in E; rewrite E.
    + split; [|apply same_rows_forward].
      split; [exact N|split; [exact C|exact Cl]].
    + split; [|now apply append_row_forward].
      split; [|split].
      * rewrite map_app. cbn [map]. apply NoDup_app; trivial.
        -- repeat constructor. intros [].
        -- intros a Ia [<-|[]]. contradiction.
      * intros r I. apply in_app_or in I as [I|[<-|[]]]; [now apply C|].
        unfold row_consistent. rewrite T, Em, P.
        repeat split; intros; (contradiction || discriminate).
      * intros job Hj. destruct (Cl job Hj) as (r & F & S).
        exists r. rewrite find_app_or, F. auto.
  - (* _get_next_job *)
    unfold sys_invariant. cbn [world claimed]. rewrite get_next_job_eq.
    destruct (claim_select (db (world s))) as [job|] eqn:S; cbn [fst snd].
    + destruct (claim_select_some _ _ S) as (I & P & _).
      assert (find (has_id (id job)) (db (world s)) = Some job) as F
          by now apply find_has_id_nodup.
      cbv zeta. unfold claim_update. cbn [db with_db].
      rewrite find_update_rows by reflexivity.
      rewrite String.eqb_refl, F. cbn [option_map fst snd db with_db
                                       with_events].
      split; [split; [|split]|].
      * now rewrite update_rows_ids.
      * apply update_rows_consistent; trivial.
        intros row Fr. rewrite F in Fr. injection Fr as <-.
        destruct (C job I) as [[T1 T2] [E1 E2]].
        unfold row_consistent. cbn. rewrite P in *.
        repeat split; intros X; try discriminate.
        -- apply T1 in X. discriminate.
        -- apply E1 in X. discriminate.
      * intros j Hj. injection Hj as <-. eexists. split.
        -- cbn [id set_updated_at set_status with_columns].
           rewrite find_update_rows by reflexivity.
           rewrite String.eqb_refl, F. reflexivity.
        -- reflexivity.
      * apply update_rows_forward; [reflexivity|].
        intros row Fr. rewrite F in Fr. injection Fr as <-.
        right. left. auto.
    + split; [|apply same_rows_forward].
      split; [|split]; trivial. intros ? ?. discriminate.
  - (* _process_job *)
    unfold sys_invariant. cbn [world claimed].
    destruct (Cl job Hc) as (row & F & S).
    destruct (process_job_outcome job row _ Q F)
      as (w1 & f & ev & D1 & _ & _ & _ & T & P).
    rewrite P. cbn [snd].
    destruct (finish_frame f ev row w1) as (Df & _). rewrite Df, D1.
    destruct (terminal_write_row f ev T) as [_ Hf].
    destruct (find_has_id_In _ _ _ F) as [I Eid].
    destruct (processing_row_blank row (C row I) S) as [Tn En].
    assert (forall r, find (has_id (id row)) (db (world s)) = Some r ->
                      r = row) as Only by (intros r Fr; congruence).
    split; [split; [|split]|].
    + rewrite update_rows_ids; trivial. intros r. apply Hf.
    + apply update_rows_consistent; trivial.
      intros r Fr. rewrite <- Eid in F. apply Only in Fr. subst r.
      unfold row_consistent.
      destruct (Hf row) as (_ & _ & _ & [(St & Tr & Er)|(St & Er & Tr & _)]);
        rewrite St, ?Tr, ?Er, ?Tn, ?En;
        repeat split; intros; trivial; (contradiction || discriminate).
    + intros ? ?. discriminate.
    + apply update_rows_forward; [intros r; apply Hf|].
      intros r Fr. rewrite <- Eid in F. apply Only in Fr. subst r.
      rewrite S.
      destruct (Hf row) as (_ & _ & _ & [(St & _)|(St & _)]); rewrite St.
      * right. right. left. auto.
      * right. right. right. auto.
Qed.

Lemma reachable_invariant `{Externals} (s : Sys) :
  engine_quiet -> reachable s -> sys_invariant s.
Proof.
  intros Q R. induction R as [s [D Cl]|s s' R IH St].
  - unfold sys_invariant. rewrite D, Cl. cbn. split; [|split].
    + constructor.
    + intros r [].
    + discriminate.
  - exact (proj1 (step_preserves s s' Q IH St)).
Qed.

Lemma engine_ok_quiet : @engine_quiet engine_ok.
Proof. repeat split. Qed.

Lemma sample_run_reachable :
  @reachable engine_ok (@state2 engine_ok) /\
  @step engine_ok (@state2 engine_ok) (@state3 engine_ok).
Proof.
  assert (@reachable engine_ok (@state2 engine_ok)) as R.
  { apply reach_step with (s := @state1 engine_ok).
    - apply reach_step with (s := state0).
      + apply reach_init. split; reflexivity.
      + apply (@step_create engine_ok).
    - apply (@step_claim engine_ok). reflexivity. }
  split; [exact R|].
  apply (@step_process engine_ok (@state2 engine_ok) claimed_J1). reflexivity.
Qed.

(** C2.  In every reachable state, whatever the next operation is (a job
    created, a claim, the worker's write after success or after failure),
    each job's status stays as it is or moves pending to processing,
    processing to completed or processing to failed; a job that appears
    starts as pending, no job disappears, and a completed or failed job
    keeps its status. *)
Theorem status_moves_only_forward `{Externals} (s s' : Sys) :
  engine_quiet -> reachable s -> step s s' ->
  (forall k row, find (has_id k) (db (world s)) = Some row ->
     exists row',
       find (has_id k) (db (world s')) = Some row' /\
       allowed_transition (status row) (status row') /\
       (terminal (status row) = true -> status row' = status row)) /\
  (forall k row', find (has_id k) (db (world s)) = None ->
     find (has_id k) (db (world s')) = Some row' -> status row' = "pending").
Proof.
  intros Q R St.
  destruct (step_preserves s s' Q (reachable_invariant s Q R) St)
    as [_ [Old New]].
  split; [|exact New].
  intros k row F. destruct (Old k row F) as (row' & F' & A).
  exists row'. repeat split; trivial.
  intros T. unfold terminal in T.
  destruct A as [A|[[A _]|[[A _]|[A _]]]]; trivial;
    rewrite A in T; discriminate.
Qed.

Lemma status_moves_only_forward_witness :
  @engine_quiet engine_ok /\
  @reachable engine_ok (@state2 engine_ok) /\
  @step engine_ok (@state2 engine_ok) (@state3 engine_ok) /\
  exists row',
    find (has_id "J1") (db (world (@state3 engine_ok))) = Some row' /\
    allowed_transition "processing" (status row').
Proof.
  destruct sample_run_reachable as [R St].
  split; [exact engine_ok_quiet|]. split; [exact R|]. split; [exact St|].
  destruct (@status_moves_only_forward engine_ok _ _ engine_ok_quiet R St)
    as [Old _].
  destruct (Old "J1" claimed_J1 eq_refl) as (row' & F & A & _).
  exists row'. split; [exact F | exact A].
Defined.

(** C3.  In every reachable state, each row has a transcript exactly when its
    status is completed, and an error message exactly when its status is
    failed. *)
Theorem reachable_rows_consistent `{Externals} (s : Sys) :
  engine_quiet -> reachable s ->
  forall r, In r (db (world s)) ->
    (transcript r <> None <-> status r = "completed") /\
    (error_message r <> None <-> status r = "failed").
Proof.
  intros Q R r I.
  destruct (reachable_invariant s Q R) as (_ & C & _). exact (C r I).
Qed.

Lemma sample_run_rows : db (world (@state3 engine_ok)) = [completed_J1].
Proof. vm_compute. reflexivity. Qed.

Lemma reachable_rows_consistent_witness :
  @engine_quiet engine_ok /\
  @reachable engine_ok (@state3 engine_ok) /\
  exists r,
    In r (db (world (@state3 engine_ok))) /\
    status r = "completed" /\ transcript r = Some "{}" /\
    error_message r = None /\
    (transcript r <> None <-> status r = "completed") /\
    (error_message r <> None <-> status r = "failed").
Proof.
  destruct sample_run_reachable as [R St].
  assert (@reachable engine_ok (@state3 engine_ok)) as R3
      by (exact (@reach_step engine_ok _ _ R St)).
  split; [exact engine_ok_quiet|]. split; [exact R3|].
  exists completed_J1. split; [rewrite sample_run_rows; now left|].
  split; [reflexivity|]. split; [reflexivity|]. split; [reflexivity|].
  apply (@reachable_rows_consistent engine_ok _ engine_ok_quiet R3).
  rewrite sample_run_rows. now left.
Defined.

(** * The write after a failure *)

(** C4.  After a failed transcription the worker writes [status],
    [error_message] and [processing_time] and commits: [completed_at] is not
    among the assigned attributes, so the failed job keeps the null
    [completed_at] it had while processing.  Here job J2 is claimed and the
    engine raises "engine timeout". *)
Theorem failed_job_keeps_null_completed_at :
  (forall elapsed e r,
     completed_at (assign_failed elapsed e r) = completed_at r) /\
  map (fun r => (status r, error_message r, processing_time r, completed_at r))
      (db (snd (@_run_iteration engine_timeout 2
                  (sample_world [sample_job "J2" "pending" 10]))))
  = [("failed", Some "engine timeout", Some (0 - 0)%Q, None)].
Proof.
  split.
  - reflexivity.
  - reflexivity.
Qed.

(** * What the engine is given *)







(** * The worker loop *)






(** * Reading a job back *)

Lemma map_M_all_ok {A B} (f : A -> M B) (l : list A) :
  (forall x, In x l -> forall w, exists y, fst (f x w) = Ok y) ->
  forall w, exists ys,
    fst (map_M f l w) = Ok ys /\
    forall x, In x l -> exists y w', In y ys /\ fst (f x w') = Ok y.
Proof.
  induction l as [|x l IH]; intros Hok w; cbn [map_M].
  - exists []. split; [reflexivity|]. intros x [].
  - unfold bind. destruct (Hok x (or_introl eq_refl) w) as [y Ey].
    destruct (f x w) as [r w1] eqn:Fx. cbn [fst] in Ey. subst r.
    destruct (IH (fun x' I => Hok x' (or_intror I)) w1) as (ys & Eys & Hys).
    destruct (map_M f l w1) as [r w2]. cbn [fst] in Eys. subst r.
    exists (y :: ys). split; [reflexivity|].
    intros x' [<-|I].
    + exists y, w. split; [now left|]. now rewrite Fx.
    + destruct (Hys x' I) as (y' & w' & Iy & Ey').
      exists y', w'. split; [now right | exact Ey'].
Qed.

Lemma job_to_response_garbled `{Externals} (job : TranscriptionJob)
    (s : string) (w : World) :
  transcript job = Some s -> json_loads s = None ->
  fst (_job_to_response job w) =
  Ok (Response.make (id job) (status job) (original_filename job)
        (model job) (language job) (diarize job)
        (min_speakers job) (max_speakers job) (chunk_size job)
        None None None
        (duration job) (processing_time job) (error_message job)
        (created_at job) (updated_at job) (completed_at job)).
Proof.
  intros T J. unfold _job_to_response, bind. rewrite T. cbn [truthy].
  destruct (negb (String.eqb s "")).
  - rewrite J. unfold logger, emit, modify, ret. reflexivity.
  - reflexivity.
Qed.

(** C10.  A completed job whose stored transcript does not decode as JSON is
    still converted without error: the response carries the job's status
    and null [text], [segments] and [detected_language].  [get_job] returns
    that response, and so does [list_jobs] for a page the job is on (when
    the other rows of the page convert too). *)
Theorem garbled_transcript_reads_as_nulls `{Externals}
    (job : TranscriptionJob) (s : string) (w : World) :
  status job = "completed" -> transcript job = Some s ->
  json_loads s = None ->
  exists resp,
    (forall w', fst (_job_to_response job w') = Ok resp) /\
    Response.id resp = id job /\ Response.status resp = "completed" /\
    Response.text resp = None /\ Response.segments resp = None /\
    Response.detected_language resp = None /\
    (find (has_id (id job)) (db w) = Some job ->
     fst (get_job (id job) w) = Ok resp) /\
    (forall page limit st,
       In job (list_jobs_rows page limit st (db w)) ->
       (forall r, In r (list_jobs_rows page limit st (db w)) ->
                  forall w', exists y, fst (_job_to_response r w') = Ok y) ->
       exists lr, fst (list_jobs page limit st w) = Ok lr /\
                  In resp (jobs lr)).
Proof.
  intros St T J. eexists.
  split; [intros w'; exact (job_to_response_garbled job s w' T J)|].
  cbn [Response.id Response.status Response.text Response.segments
       Response.detected_language].
  repeat split; trivial.
  - intros F. unfold get_job, bind, query_by_id. cbn [fst snd]. rewrite F.
    exact (job_to_response_garbled job s w T J).
  - intros page limit st I Hok. unfold list_jobs, bind, get_world.
    destruct (map_M_all_ok _job_to_response _ Hok w) as (ys & E & Hys).
    destruct (map_M _job_to_response _ w) as [r w1]. cbn [fst] in E.
    subst r. eexists. split; [reflexivity|]. cbn [jobs].
    destruct (Hys job I) as (y & w' & Iy & Ey).
    rewrite (job_to_response_garbled job s w' T J) in Ey.
    injection Ey as <-. exact Iy.
Qed.

Lemma garbled_transcript_reads_as_nulls_witness :
  let w := sample_world [garbled_job] in
  status garbled_job = "completed" /\
  transcript garbled_job = Some "{not json" /\
  @json_loads engine_ok "{not json" = None /\
  exists resp,
    fst (@get_job engine_ok "J9" w) = Ok resp /\
    Response.status resp = "completed" /\ Response.text resp = None /\
    Response.segments resp = None /\
    Response.detected_language resp = None /\
    exists lr, fst (@list_jobs engine_ok 1 20 None w) = Ok lr /\
               In resp (jobs lr).
Proof.
  intros w. split; [reflexivity|]. split; [reflexivity|].
  split; [reflexivity|].
  destruct (@garbled_transcript_reads_as_nulls engine_ok garbled_job
              "{not json" w eq_refl eq_refl eq_refl)
    as (resp & _ & _ & S & T & Sg & D & G & L).
  exists resp. split; [apply G; reflexivity|].
  repeat (split; [assumption|]).
  apply (L 1 20 None).
  - left. reflexivity.
  - intros r [<-|[]] w'. eexists. reflexivity.
Defined.

(** * Further properties of the worker *)




Lemma process_job_when_engine_returns `{Externals} (result : PyDict)
    (job : TranscriptionJob) (w : World) :
  engine_returns result ->
  let w0 := with_events (with_current w (Some (id job)))
              (events w ++ [EvLog INFO ("Processing job " ++ id job)]) in
  _process_job job w =
  (fst (write_completed job (time_now w) result w0),
   with_current (snd (write_completed job (time_now w) result w0)) None).
Proof.
  intros (L & Ld & T). cbv zeta.
  unfold _process_job, try_finally, db_close, bind, attempt, logger, emit,
    modify, time_time, ret.
  cbn [fst snd]. rewrite L.
  match goal with
  | |- context [load_model_instance (model job) ?w0] =>
      destruct (Ld (model job) w0) as [mi E]; rewrite E
  end.
  rewrite T.
  destruct (write_completed _ _ _ _) as [r w1]. reflexivity.
Qed.

Lemma process_job_when_engine_raises `{Externals} (e : PyExc)
    (job : TranscriptionJob) (w : World) :
  engine_raises e ->
  let w0 := with_events (with_current w (Some (id job)))
              (events w ++ [EvLog INFO ("Processing job " ++ id job)]) in
  _process_job job w =
  (fst (on_processing_error (Some job) (Some (time_now w)) e w0),
   with_current
     (snd (on_processing_error (Some job) (Some (time_now w)) e w0)) None).
Proof.
  intros (L & Ld & T). cbv zeta.
  unfold _process_job, try_finally, db_close, bind, attempt, logger, emit,
    modify, time_time, ret.
  cbn [fst snd]. rewrite L.
  match goal with
  | |- context [load_model_instance (model job) ?w0] =>
      destruct (Ld (model job) w0) as [mi E]; rewrite E
  end.
  rewrite T.
  destruct (on_processing_error _ _ _ _) as [r w1]. reflexivity.
Qed.




Lemma engine_ok_returns : @engine_returns engine_ok sample_result.
Proof. repeat split. intros m w. now exists m. Qed.

Lemma engine_timeout_raises :
  @engine_raises engine_timeout (mkExc "RuntimeError" "engine timeout").
Proof. repeat split. intros m w. now exists m. Qed.



(** When the row of the claimed job has been deleted, [_process_job] writes
    nothing and requests no cleanup.  If the engine raised, the handler
    finds no row and the call returns normally; if the engine returned a
    result, assigning to the missing row raises inside the [try], the
    handler itself raises on [job.id], and the [AttributeError] leaves the
    function. *)
Theorem process_job_without_row `{Externals} (job : TranscriptionJob)
    (w : World) :
  find (has_id (id job)) (db w) = None ->
  let w' := snd (_process_job job w) in
  (forall result, engine_returns result ->
     fst (_process_job job w) = Raise (none_has_no_attribute "id") /\
     db w' = db w /\ files w' = files w /\
     all_cleanup_requests (events w') = all_cleanup_requests (events w)) /\
  (forall e, engine_raises e ->
     fst (_process_job job w) = Ok tt /\
     db w' = db w /\ files w' = files w /\
     all_cleanup_requests (events w') = all_cleanup_requests (events w)).
Proof.
  intros F. cbv zeta. split.
  - intros result R.
    rewrite (process_job_when_engine_returns result job w R). cbv zeta.
    unfold write_completed, bind, time_time, query_by_id. cbn [fst snd db
      with_events with_current].
    rewrite F. cbn. repeat split.
    rewrite all_cleanup_requests_app. cbn. apply app_nil_r.
  - intros e R.
    rewrite (process_job_when_engine_raises e job w R). cbv zeta.
    unfold on_processing_error, try_except, bind, logger, emit, modify,
      query_by_id, ret.
    cbn [fst snd db with_events with_current]. rewrite F. cbn.
    repeat split.
    rewrite !all_cleanup_requests_app. cbn. now rewrite !app_nil_r.
Qed.

Lemma process_job_without_row_witness :
  let w := sample_world [] in
  find (has_id (id claimed_J1)) (db w) = None /\
  fst (@_process_job engine_ok claimed_J1 w)
    = Raise (none_has_no_attribute "id") /\
  fst (@_process_job engine_timeout claimed_J1 w) = Ok tt.
Proof.
  intros w. split; [reflexivity|]. split.
  - apply (proj1 (@process_job_without_row engine_ok claimed_J1 w eq_refl)
             sample_result engine_ok_returns).
  - apply (proj2 (@process_job_without_row engine_timeout claimed_J1 w
                    eq_refl)
             (mkExc "RuntimeError" "engine timeout") engine_timeout_raises).
Defined.

(** * Claim after claim *)

Lemma get_next_job_cases (w : World) :
  NoDup (map id (db w)) ->
  (claim_select (db w) = None /\ _get_next_job w = (Ok None, w)) \/
  (exists j0,
     claim_select (db w) = Some j0 /\
     _get_next_job w =
     (Ok (Some (set_updated_at (utc_now w) (set_status "processing" j0))),
      with_events
        (with_db w (claim_update j0 (utc_now w) (db w)))
        (events w ++ [EvLog INFO ("Picked up job: " ++ id j0)]))).
Proof.
  intros N. destruct (claim_select (db w)) as [j0|] eqn:S.
  - right. exists j0. split; trivial.
    rewrite (get_next_job_claimed w j0 N S). cbv zeta.
    destruct (claim_select_some _ _ S) as (I & _).
    unfold claim_update. now rewrite (update_rows_nodup j0 _ _ _ N I).
  - left. split; trivial. now rewrite get_next_job_eq, S.
Qed.

Lemma still_pending_after_claim (j0 r : TranscriptionJob) (now : Z)
    (rows : list TranscriptionJob) :
  In r (claim_update j0 now rows) -> status r = "pending" ->
  In r rows /\ id r <> id j0.
Proof.
  intros I P. destruct (claim_update_row _ _ _ _ I) as [[_ S]|[N I0]].
  - rewrite S in P. discriminate.
  - auto.
Qed.

Lemma update_rows_absent (k : string)
    (f : TranscriptionJob -> TranscriptionJob) (now : Z)
    (rows : list TranscriptionJob) :
  ~ In k (map id rows) -> update_rows k f now rows = rows.
Proof.
  intros N. unfold update_rows. rewrite <- (map_id rows) at 2.
  apply map_ext_in. intros r I.
  destruct (has_id k r) eqn:E; trivial.
  apply has_id_true in E. exfalso. apply N. rewrite <- E. now apply in_map.
Qed.

Lemma pending_count_after_claim (j0 : TranscriptionJob) (now : Z)
    (rows : list TranscriptionJob) :
  NoDup (map id rows) -> In j0 rows -> status j0 = "pending" ->
  S (pending_count (claim_update j0 now rows)) = pending_count rows.
Proof.
  unfold claim_update, pending_count.
  induction rows as [|r rows IH]; intros N I P; [destruct I|].
  inversion N as [|? ? Hnot N']; subst.
  assert (forall x, has_status "pending"
                      (set_updated_at now (set_status "processing" x)) = false)
    as Hproc by reflexivity.
  destruct I as [->|I].
  - assert (has_id (id j0) j0 = true) as Hj by now apply has_id_true.
    assert (has_status "pending" j0 = true) as Hp by now apply has_status_true.
    unfold update_rows. cbn [map]. rewrite Hj.
    change (map (fun r => if has_id (id j0) r
                          then set_updated_at now (set_status "processing" r)
                          else r) rows)
      with (update_rows (id j0) (set_status "processing") now rows).
    rewrite (update_rows_absent _ _ _ _ Hnot).
    cbn [filter]. rewrite Hproc, Hp. reflexivity.
  - assert (has_id (id j0) r = false) as E.
    { destruct (has_id (id j0) r) eqn:E; trivial.
      apply has_id_true in E. exfalso. apply Hnot. rewrite E.
      now apply in_map. }
    unfold update_rows. cbn [map]. rewrite E.
    change (map (fun r => if has_id (id j0) r
                          then set_updated_at now (set_status "processing" r)
                          else r) rows)
      with (update_rows (id j0) (set_status "processing") now rows).
    cbn [filter]. destruct (has_status "pending" r); cbn [length];
      now rewrite <- (IH N' I P).
Qed.

(** Claims made one after the other hand out the pending jobs oldest
    first: the jobs come in non-decreasing [created_at], no job comes twice,
    and each is a row that was pending at the start, now processing. *)
Theorem drain_is_fifo (n : nat) (w : World) :
  NoDup (map id (db w)) ->
  let claimed_jobs := fst (drain n w) in
  StronglySorted (fun a b => created_at a <= created_at b) claimed_jobs /\
  NoDup (map id claimed_jobs) /\
  (forall j, In j claimed_jobs ->
     status j = "processing" /\
     exists r, In r (db w) /\ status r = "pending" /\
               same_creation_columns r j).
Proof.
  revert w. induction n as [|n IH]; intros w N; cbn [drain].
  - cbn. split; [constructor|]. split; [constructor|]. intros j0 [].
  - destruct (get_next_job_cases w N) as [[_ G]|(j0 & S & G)]; rewrite G.
    + cbn. split; [constructor|]. split; [constructor|]. intros j1 [].
    + set (w1 := with_events _ _).
      assert (NoDup (map id (db w1))) as N1.
      { unfold w1, claim_update. cbn [db with_events with_db].
        now rewrite update_rows_ids. }
      specialize (IH w1 N1). cbv zeta in IH.
      destruct (drain n w1) as [rest w2]. cbn [fst] in *.
      destruct IH as (Sorted_ & Nd & Each).
      destruct (claim_select_some _ _ S) as (I0 & P0 & Least).
      assert (forall j, In j rest ->
                exists r, In r (db w) /\ status r = "pending" /\
                          id r <> id j0 /\ same_creation_columns r j) as Old.
      { intros j Ij. destruct (Each j Ij) as (_ & r & Ir & Pr & Same).
        destruct (still_pending_after_claim j0 r (utc_now w) (db w) Ir Pr)
          as [Ir0 Ne].
        exists r. auto. }
      split; [|split].
      * constructor; trivial. apply Forall_forall. intros j Ij.
        destruct (Old j Ij) as (r & Ir & Pr & _ & Same).
        cbn [created_at set_updated_at set_status with_columns].
        destruct Same as (_ & _ & _ & _ & _ & _ & _ & _ & _ & _ & _ & <-).
        now apply Least.
      * cbn [map]. constructor; trivial.
        intros Hin. apply in_map_iff in Hin as (j & E & Ij).
        destruct (Old j Ij) as (r & _ & _ & Ne & Same).
        destruct Same as (Eid & _). apply Ne. rewrite Eid. exact E.
      * intros j [<-|Ij].
        -- split; [reflexivity|]. exists j0. repeat split; trivial.
        -- split; [apply (Each j Ij)|].
           destruct (Old j Ij) as (r & Ir & Pr & _ & Same). exists r. auto.
Qed.

(** With as many claims as there are pending rows, every pending row is
    handed out and none is left pending. *)
Theorem drain_empties_the_queue (n : nat) (w : World) :
  NoDup (map id (db w)) ->
  (pending_count (db w) <= n)%nat ->
  length (fst (drain n w)) = pending_count (db w) /\
  forall r, In r (db (snd (drain n w))) -> status r <> "pending".
Proof.
  revert w. induction n as [|n IH]; intros w N Le; cbn [drain].
  - cbn [fst snd length]. assert (pending_count (db w) = 0%nat) as Z by lia.
    split; [now rewrite Z|]. intros r I P.
    unfold pending_count in Z. apply length_zero_iff_nil in Z.
    assert (In r (filter (has_status "pending") (db w))) as F
        by (apply filter_In; split; trivial; now apply has_status_true).
    rewrite Z in F. destruct F.
  - destruct (get_next_job_cases w N) as [[Sel G]|(j0 & Sel & G)]; rewrite G.
    + cbn [fst snd length]. split.
      * unfold pending_count.
        destruct (filter (has_status "pending") (db w)) as [|r l] eqn:F;
          trivial.
        exfalso. apply (claim_select_none _ Sel r).
        -- apply (proj1 (filter_In (has_status "pending") r (db w))).
           rewrite F. now left.
        -- apply has_status_true.
           apply (proj1 (filter_In (has_status "pending") r (db w))).
           rewrite F. now left.
      * exact (claim_select_none _ Sel).
    + set (w1 := with_events _ _).
      destruct (claim_select_some _ _ Sel) as (I0 & P0 & _).
      assert (NoDup (map id (db w1))) as N1.
      { unfold w1, claim_update. cbn [db with_events with_db].
        now rewrite update_rows_ids. }
      assert (S (pending_count (db w1)) = pending_count (db w)) as C
          by (apply pending_count_after_claim; trivial).
      assert (pending_count (db w1) <= n)%nat as Le1 by lia.
      destruct (IH w1 N1 Le1) as [Len None_].
      destruct (drain n w1) as [rest w2]. cbn [fst snd length] in *.
      split; [lia|exact None_].
Qed.

Lemma drain_is_fifo_witness :
  let w := sample_world [sample_job "B" "pending" 20;
                         sample_job "A" "pending" 10;
                         sample_job "C" "completed" 5] in
  NoDup (map id (db w)) /\
  map id (fst (drain 5 w)) = ["A"; "B"] /\
  StronglySorted (fun a b => created_at a <= created_at b) (fst (drain 5 w)).
Proof.
  intros w.
  assert (NoDup (map id (db w))) as N.
  { simpl. repeat constructor; simpl; intuition discriminate. }
  split; [exact N|]. split; [reflexivity|].
  apply (drain_is_fifo 5 w N).
Defined.

Lemma drain_empties_the_queue_witness :
  let w := sample_world [sample_job "B" "pending" 20;
                         sample_job "A" "pending" 10;
                         sample_job "C" "completed" 5] in
  NoDup (map id (db w)) /\ (pending_count (db w) <= 5)%nat /\
  length (fst (drain 5 w)) = 2%nat /\
  forall r, In r (db (snd (drain 5 w))) -> status r <> "pending".
Proof.
  intros w.
  assert (NoDup (map id (db w))) as N.
  { simpl. repeat constructor; simpl; intuition discriminate. }
  assert (pending_count (db w) <= 5)%nat as Le by (vm_compute; lia).
  split; [exact N|]. split; [exact Le|].
  apply (drain_empties_the_queue 5 w N Le).
Defined.

(** * Listing jobs *)

Lemma insert_asc_sorted {A} (key : A -> Z) (x : A) (l : list A) :
  StronglySorted (fun a b => key a <= key b) l ->
  StronglySorted (fun a b => key a <= key b) (insert_asc key x l).
Proof.
  induction 1 as [|y l Hl IH Hy]; cbn [insert_asc].
  - repeat constructor.
  - destruct (key x <=? key y) eqn:C.
    + apply Z.leb_le in C. constructor.
      * now constructor.
      * constructor; trivial. rewrite Forall_forall in *.
        intros z Iz. specialize (Hy z Iz). lia.
    + apply Z.leb_gt in C. constructor; trivial.
      apply Forall_forall. intros z Iz.
      apply insert_asc_In in Iz as [->|Iz]; [lia|].
      rewrite Forall_forall in Hy. now apply Hy.
Qed.

Lemma order_by_asc_sorted {A} (key : A -> Z) (l : list A) :
  StronglySorted (fun a b => key a <= key b) (order_by_asc key l).
Proof.
  induction l as [|x l IH]; cbn [order_by_asc].
  - constructor.
  - now apply insert_asc_sorted.
Qed.

Lemma insert_asc_length {A} (key : A -> Z) (x : A) (l : list A) :
  length (insert_asc key x l) = S (length l).
Proof.
  induction l as [|y l IH]; cbn [insert_asc]; trivial.
  destruct (key x <=? key y); cbn [length]; now rewrite ?IH.
Qed.

Lemma order_by_asc_length {A} (key : A -> Z) (l : list A) :
  length (order_by_asc key l) = length l.
Proof.
  induction l as [|x l IH]; cbn [order_by_asc]; trivial.
  rewrite insert_asc_length. cbn [length]. now rewrite IH.
Qed.

Lemma strongly_sorted_weaken {A} (R R' : A -> A -> Prop) (l : list A) :
  (forall a b, R a b -> R' a b) ->
  StronglySorted R l -> StronglySorted R' l.
Proof.
  intros W. induction 1 as [|x l Hl IH Hx]; constructor; trivial.
  rewrite Forall_forall in *. auto.
Qed.

Lemma strongly_sorted_skipn {A} (R : A -> A -> Prop) (n : nat) (l : list A) :
  StronglySorted R l -> StronglySorted R (skipn n l).
Proof.
  revert l. induction n as [|n IH]; intros l Hs; cbn [skipn]; trivial.
  destruct l as [|x l]; trivial. apply IH.
  now inversion Hs.
Qed.

Lemma in_firstn_in {A} (n : nat) (l : list A) (y : A) :
  In y (firstn n l) -> In y l.
Proof.
  revert l. induction n as [|n IH]; intros l I; cbn [firstn] in I.
  - destruct I.
  - destruct l as [|x l]; [destruct I|].
    destruct I as [->|I]; [now left|right; now apply IH].
Qed.

Lemma in_skipn_in {A} (n : nat) (l : list A) (y : A) :
  In y (skipn n l) -> In y l.
Proof.
  revert l. induction n as [|n IH]; intros l I; cbn [skipn] in I; trivial.
  destruct l as [|x l]; [destruct I|]. right. now apply IH.
Qed.

Lemma strongly_sorted_firstn {A} (R : A -> A -> Prop) (n : nat) (l : list A) :
  StronglySorted R l -> StronglySorted R (firstn n l).
Proof.
  revert l. induction n as [|n IH]; intros l Hs; cbn [firstn].
  - constructor.
  - destruct l as [|x l]; [constructor|].
    inversion Hs as [|? ? Hl Hx]; subst. constructor; [now apply IH|].
    rewrite Forall_forall in *. intros y Iy. apply Hx.
    now apply (in_firstn_in n l y).
Qed.

(** What a response copies from its row. *)
Lemma job_to_response_copies `{Externals} (job : TranscriptionJob)
    (w : World) (resp : Response.t) :
  fst (_job_to_response job w) = Ok resp ->
  Response.id resp = id job /\ Response.status resp = status job /\
  Response.created_at resp = created_at job /\
  Response.model resp = model job /\
  Response.error_message resp = error_message job.
Proof.
  unfold _job_to_response, bind, lift_result, logger, emit, modify, ret, raise.
  destruct (truthy (transcript job)).
  - destruct (json_loads _) as [data|].
    + destruct (read_transcript data) as [[[t sg] dl]|e]; cbn [fst snd];
        [|discriminate].
      destruct (validate_optional_str t); [|discriminate].
      destruct (validate_optional_str dl); [|discriminate].
      cbn [fst]. intros E. injection E as <-. repeat split.
    + cbn [fst snd validate_optional_str]. intros E. injection E as <-.
      repeat split.
  - cbn [fst snd validate_optional_str]. intros E. injection E as <-.
    repeat split.
Qed.

Lemma map_M_forall2 {A B} (f : A -> M B) (P : A -> B -> Prop) (l : list A) :
  (forall x w y, fst (f x w) = Ok y -> P x y) ->
  forall w ys, fst (map_M f l w) = Ok ys -> Forall2 P l ys.
Proof.
  intros HP. induction l as [|x l IH]; intros w ys; cbn [map_M].
  - intros E. injection E as <-. constructor.
  - unfold bind. destruct (f x w) as [[y|e] w1] eqn:Fx; [|discriminate].
    destruct (map_M f l w1) as [[ys'|e] w2] eqn:Fl; [|discriminate].
    unfold ret. cbn [fst]. intros E. injection E as <-. constructor.
    + apply (HP x w y). now rewrite Fx.
    + apply (IH w1 ys'). now rewrite Fl.
Qed.

Lemma map_M_frame {A B} (f : A -> M B) (l : list A) :
  (forall x w, db (snd (f x w)) = db w) ->
  forall w, db (snd (map_M f l w)) = db w.
Proof.
  intros Hf. induction l as [|x l IH]; intros w; cbn [map_M]; trivial.
  unfold bind, ret. specialize (Hf x w).
  destruct (f x w) as [[y|e] w1]; cbn [snd] in *; trivial.
  specialize (IH w1).
  destruct (map_M f l w1) as [[ys|e] w2]; cbn [snd] in *; congruence.
Qed.

Lemma forall2_sorted {A B} (P : A -> B -> Prop)
    (R : A -> A -> Prop) (R' : B -> B -> Prop) (l : list A) (l' : list B) :
  (forall a b a' b', P a a' -> P b b' -> R a b -> R' a' b') ->
  Forall2 P l l' -> StronglySorted R l -> StronglySorted R' l'.
Proof.
  intros T. induction 1 as [|a a' l l' Pa F IH]; intros Hs.
  - constructor.
  - inversion Hs as [|? ? Hl Ha]; subst. constructor; [now apply IH|].
    clear IH Hs Hl. induction F as [|b b' l l' Pb F IH].
    + constructor.
    + inversion Ha; subst. constructor; eauto.
Qed.

Lemma forall2_in_r {A B} (P : A -> B -> Prop) (l : list A) (l' : list B)
    (y : B) :
  Forall2 P l l' -> In y l' -> exists x, In x l /\ P x y.
Proof.
  induction 1 as [|a a' l l' Pa F IH]; intros I; [destruct I|].
  destruct I as [<-|I].
  - exists a. split; [now left|exact Pa].
  - destruct (IH I) as (x & Ix & Px). exists x. split; [now right|exact Px].
Qed.

Lemma list_jobs_rows_in (pg lim : Z) (st : option string)
    (rows : list TranscriptionJob) (r : TranscriptionJob) :
  In r (list_jobs_rows pg lim st rows) ->
  In r rows /\ (truthy st = true -> Some (status r) = st).
Proof.
  unfold list_jobs_rows, sql_limit, sql_offset, order_by_desc. intros I.
  assert (In r (if truthy st
                then filter (has_status (str_or st "")) rows
                else rows)) as I'.
  { destruct (lim <? 0).
    - apply in_skipn_in in I. now apply order_by_asc_In in I.
    - apply in_firstn_in in I. apply in_skipn_in in I.
      now apply order_by_asc_In in I. }
  destruct (truthy st) eqn:T.
  - apply filter_In in I' as [I' S]. apply has_status_true in S.
    split; trivial. intros _. destruct st as [s|]; [|discriminate].
    cbn in T, S. destruct (String.eqb s ""); [discriminate|]. now rewrite S.
  - split; trivial. discriminate.
Qed.

(** [list_jobs]: the total counts every row that passes the status filter,
    whatever the page; the page holds rows of the table that pass the
    filter, newest first, and for a page number from 1 and a limit from 0
    it holds [min(limit, total - (page-1)*limit)] of them (none when that is
    negative); the table is not changed. *)
Theorem list_jobs_page `{Externals} (pg lim : Z) (st : option string)
    (w : World) (lr : TranscriptionJobListResponse) :
  fst (list_jobs pg lim st w) = Ok lr ->
  total lr = Z.of_nat (length (if truthy st
                               then filter (has_status (str_or st "")) (db w)
                               else db w)) /\
  page lr = pg /\ limit lr = lim /\
  (forall resp, In resp (jobs lr) ->
     (exists r, In r (db w) /\ Response.id resp = id r /\
                Response.status resp = status r) /\
     (truthy st = true -> Some (Response.status resp) = st)) /\
  StronglySorted
    (fun a b => Response.created_at b <= Response.created_at a) (jobs lr) /\
  (1 <= pg -> 0 <= lim ->
   Z.of_nat (length (jobs lr)) =
   Z.max 0 (Z.min lim (total lr - (pg - 1) * lim))) /\
  db (snd (list_jobs pg lim st w)) = db w.
Proof.
  unfold list_jobs, bind, get_world. cbn [fst snd].
  pose proof (map_M_frame _job_to_response
                (list_jobs_rows pg lim st (db w)) job_to_response_frame w)
    as Fr.
  pose proof (map_M_forall2 _job_to_response
                (fun r resp => Response.id resp = id r /\
                               Response.status resp = status r /\
                               Response.created_at resp = created_at r)
                (list_jobs_rows pg lim st (db w))) as F2.
  destruct (map_M _job_to_response _ w) as [[ys|e] w1] eqn:E;
    cbn [fst snd] in *; [|discriminate].
  intros Eq. injection Eq as <-. cbn [total page limit jobs].
  assert (Forall2 (fun r resp => Response.id resp = id r /\
                                 Response.status resp = status r /\
                                 Response.created_at resp = created_at r)
            (list_jobs_rows pg lim st (db w)) ys) as F.
  { apply F2 with (w := w).
    - intros x w0 y Hy.
      destruct (job_to_response_copies x w0 y Hy) as (a & b & c & _). auto.
    - now rewrite E. }
  split; [reflexivity|]. split; [reflexivity|]. split; [reflexivity|].
  split; [|split; [|split; [|exact Fr]]].
  - intros resp Iresp.
    destruct (forall2_in_r _ _ _ _ F Iresp) as (r & Ir & Ei & Es & _).
    destruct (list_jobs_rows_in _ _ _ _ _ Ir) as [Idb St].
    split; [exists r; auto|]. intros T. rewrite Es. auto.
  - refine (forall2_sorted _ (fun a b => created_at b <= created_at a)
              _ _ _ _ F _).
    { intros a b a' b' (_ & _ & Ea) (_ & _ & Eb) R. rewrite Ea, Eb. exact R. }
    unfold list_jobs_rows, sql_limit, sql_offset, order_by_desc.
    assert (StronglySorted (fun a b => created_at b <= created_at a)
              (order_by_asc (fun x => - created_at x)
                 (if truthy st
                  then filter (has_status (str_or st "")) (db w)
                  else db w))) as Sd.
    { apply (strongly_sorted_weaken
               (fun a b => - created_at a <= - created_at b)).
      - intros a b. lia.
      - apply order_by_asc_sorted. }
    destruct (lim <? 0).
    + now apply strongly_sorted_skipn.
    + apply strongly_sorted_firstn. now apply strongly_sorted_skipn.
  - intros Hp Hl. rewrite <- (Forall2_length F).
    unfold list_jobs_rows, sql_limit, sql_offset, order_by_desc.
    destruct (lim <? 0) eqn:Neg; [apply Z.ltb_lt in Neg; lia|].
    rewrite length_firstn, length_skipn, order_by_asc_length.
    assert (0 <= (pg - 1) * lim) by nia. lia.
Qed.

Lemma list_jobs_page_witness :
  exists lr,
    fst (@list_jobs engine_ok 1 2 (Some "completed") (sample_world five_jobs))
      = Ok lr /\
    total lr = 3 /\ map Response.id (jobs lr) = ["e"; "c"] /\
    Z.of_nat (length (jobs lr)) = Z.max 0 (Z.min 2 (total lr - (1 - 1) * 2)).
Proof.
  eexists. split; [vm_compute; reflexivity|].
  split; [reflexivity|]. split; [reflexivity|].
  refine (proj1 (proj2 (proj2 (proj2 (proj2 (proj2
            (@list_jobs_page engine_ok 1 2 (Some "completed")
               (sample_world five_jobs) _ _)))))) _ _); [|lia|lia].
  vm_compute. reflexivity.
Defined.

(** * Reading and deleting by id *)

Lemma find_filter_out (k : string) (rows : list TranscriptionJob) :
  find (has_id k) (filter (fun r => negb (has_id k r)) rows) = None.
Proof.
  induction rows as [|r rows IH]; cbn [filter find]; trivial.
  destruct (has_id k r) eqn:E; cbn [negb find]; trivial. now rewrite E.
Qed.

Lemma find_filter_other (k k' : string) (rows : list TranscriptionJob) :
  k' <> k ->
  find (has_id k') (filter (fun r => negb (has_id k r)) rows) =
  find (has_id k') rows.
Proof.
  intros N. induction rows as [|r rows IH]; cbn [filter find]; trivial.
  destruct (has_id k r) eqn:E; cbn [negb find].
  - apply has_id_true in E.
    assert (has_id k' r = false) as ->; [|exact IH].
    destruct (has_id k' r) eqn:E'; trivial.
    apply has_id_true in E'. congruence.
  - now rewrite IH.
Qed.

(** An id that no row carries: [get_job] and [delete_job] raise the 404
    exception and leave the world (table and files) exactly as it was. *)
Theorem unknown_job_is_not_found `{Externals} (k : string) (w : World) :
  find (has_id k) (db w) = None ->
  get_job k w = (Raise (http_exception "404" ("Job not found: " ++ k)), w) /\
  delete_job k w = (Raise (http_exception "404" ("Job not found: " ++ k)), w).
Proof.
  intros F. unfold get_job, delete_job, bind, query_by_id, raise.
  cbn [fst snd]. rewrite F. split; reflexivity.
Qed.

Lemma unknown_job_is_not_found_witness :
  let w := sample_world five_jobs in
  find (has_id "zz") (db w) = None /\
  delete_job "zz" w
    = (Raise (http_exception "404" ("Job not found: " ++ "zz")), w).
Proof.
  intros w. split; [reflexivity|].
  apply (@unknown_job_is_not_found engine_ok "zz" w eq_refl).
Defined.

Lemma delete_job_found (k : string) (job : TranscriptionJob) (w : World) :
  find (has_id k) (db w) = Some job ->
  exists w1,
    db w1 = db w /\ undeletable w1 = undeletable w /\
    (exists_file (audio_path job) w1 = true ->
     files w1 = files w /\
     existsb (String.eqb (audio_path job)) (undeletable w) = true) /\
    delete_job k w =
    (Ok ("Job " ++ k ++ " deleted"),
     with_events
       (with_db w1 (filter (fun r => negb (has_id (id job) r)) (db w1)))
       (events w1 ++ [EvLog INFO ("Deleted job: " ++ k)])).
Proof.
  intros F. unfold delete_job, bind, query_by_id, os_path_exists.
  cbn [fst snd]. rewrite F.
  assert (negb (String.eqb (audio_path job) "")
          && exists_file (audio_path job) w = exists_file (audio_path job) w)
    as Hc.
  { unfold exists_file. now destruct (negb (String.eqb (audio_path job) "")). }
  rewrite Hc.
  destruct (exists_file (audio_path job) w) eqn:Ex.
  - unfold try_except, os_remove.
    destruct (existsb (String.eqb (audio_path job)) (undeletable w)) eqn:U.
    + unfold logger, emit, modify, ret. cbn [fst snd].
      exists (with_events w
                (events w ++
                   [EvLog WARNING
                      ("Failed to delete audio file: "
                         ++ "Operation not permitted")])).
      split; [|split; [|split; [|reflexivity]]]; try reflexivity.
      intros _. split; reflexivity.
    + unfold modify, logger, emit, modify, ret. cbn [fst snd].
      exists (with_events
                (with_files w
                   (filter (fun q => negb (String.eqb q (audio_path job)))
                      (files w)))
                (events w ++ [EvRemove (audio_path job)])).
      split; [|split; [|split; [|reflexivity]]]; try reflexivity.
      unfold exists_file. cbn [files with_events with_files].
      rewrite existsb_removed, andb_false_r. discriminate.
  - unfold ret, modify, logger, emit, modify. cbn [fst snd].
    exists w. split; [|split; [|split; [|reflexivity]]]; try reflexivity.
    rewrite Ex. discriminate.
Qed.

(** [delete_job] on an id that a row carries returns its message and removes
    the row: the id is no longer found, every other id is found as before,
    the audio file is gone unless the operating system refused to remove
    it, and a second [get_job] or [delete_job] for the id raises 404. *)
Theorem delete_job_removes_the_row `{Externals} (k : string)
    (job : TranscriptionJob) (w : World) :
  find (has_id k) (db w) = Some job ->
  let w' := snd (delete_job k w) in
  fst (delete_job k w) = Ok ("Job " ++ k ++ " deleted") /\
  find (has_id k) (db w') = None /\
  (forall k', k' <> k -> find (has_id k') (db w') = find (has_id k') (db w)) /\
  (existsb (String.eqb (audio_path job)) (undeletable w) = false ->
   exists_file (audio_path job) w' = false) /\
  fst (get_job k w')
    = Raise (http_exception "404" ("Job not found: " ++ k)) /\
  fst (delete_job k w')
    = Raise (http_exception "404" ("Job not found: " ++ k)).
Proof.
  intros F. cbv zeta.
  destruct (delete_job_found k job w F) as (w1 & D & U & X & E).
  destruct (find_has_id_In _ _ _ F) as [_ Eid].
  rewrite E. cbn [fst snd db with_events with_db]. rewrite D, Eid.
  assert (find (has_id k)
            (db (with_events
                   (with_db w1
                      (filter (fun r => negb (has_id k r)) (db w)))
                   (events w1 ++ [EvLog INFO ("Deleted job: " ++ k)])))
          = None) as Gone by apply find_filter_out.
  split; [reflexivity|]. split; [apply find_filter_out|].
  split; [intros k' N; now apply find_filter_other|].
  split; [|split].
  - intros Hu. unfold exists_file. cbn [files with_events with_db].
    destruct (exists_file (audio_path job) w1) eqn:Ex.
    + destruct (X eq_refl) as [_ C]. congruence.
    + exact Ex.
  - now rewrite (proj1 (unknown_job_is_not_found k _ Gone)).
  - now rewrite (proj2 (unknown_job_is_not_found k _ Gone)).
Qed.

Lemma delete_job_removes_the_row_witness :
  let w := sample_world five_jobs in
  find (has_id "c") (db w) = Some (sample_job "c" "completed" 3) /\
  fst (delete_job "c" w) = Ok ("Job " ++ "c" ++ " deleted") /\
  map id (db (snd (delete_job "c" w))) = ["a"; "b"; "d"; "e"] /\
  find (has_id "c") (db (snd (delete_job "c" w))) = None.
Proof.
  intros w.
  destruct (@delete_job_removes_the_row engine_ok "c"
              (sample_job "c" "completed" 3) w eq_refl)
    as (R & G & _).
  split; [reflexivity|]. split; [exact R|]. split; [reflexivity|exact G].
Defined.

(** * Creating a job *)

Lemma job_to_response_without_transcript `{Externals}
    (job : TranscriptionJob) (w : World) :
  truthy (transcript job) = false ->
  _job_to_response job w = (Ok (response_without_transcript job), w).
Proof.
  intros T. unfold _job_to_response, bind, ret. now rewrite T.
Qed.












(** In every reachable state a job that is not completed has no transcript,
    so reading it never fails: [_job_to_response] and [get_job] return its
    columns with null text, segments and detected language, and change
    nothing. *)
Theorem unfinished_jobs_are_readable `{Externals} (s : Sys)
    (r : TranscriptionJob) :
  engine_quiet -> reachable s ->
  In r (db (world s)) -> status r <> "completed" ->
  (forall w, _job_to_response r w = (Ok (response_without_transcript r), w)) /\
  get_job (id r) (world s) = (Ok (response_without_transcript r), world s).
Proof.
  intros Q R I Nc.
  destruct (reachable_invariant s Q R) as (N & C & _).
  destruct (C r I) as [[T _] _].
  assert (truthy (transcript r) = false) as Tr.
  { destruct (transcript r) as [t|]; trivial.
    exfalso. apply Nc, T. discriminate. }
  split.
  - intros w. now apply job_to_response_without_transcript.
  - unfold get_job, bind, query_by_id. cbn [fst snd].
    rewrite (find_has_id_nodup _ _ N I).
    now apply job_to_response_without_transcript.
Qed.

Lemma unfinished_jobs_are_readable_witness :
  @engine_quiet engine_ok /\
  @reachable engine_ok (@state2 engine_ok) /\
  In claimed_J1 (db (world (@state2 engine_ok))) /\
  status claimed_J1 <> "completed" /\
  @get_job engine_ok "J1" (world (@state2 engine_ok))
    = (Ok (response_without_transcript claimed_J1),
       world (@state2 engine_ok)).
Proof.
  destruct sample_run_reachable as [R _].
  assert (In claimed_J1 (db (world (@state2 engine_ok)))) as I
      by (left; vm_compute; reflexivity).
  assert (status claimed_J1 <> "completed") as Nc by discriminate.
  split; [exact engine_ok_quiet|]. split; [exact R|].
  split; [exact I|]. split; [exact Nc|].
  apply (@unfinished_jobs_are_readable engine_ok _ claimed_J1
           engine_ok_quiet R I Nc).
Defined.

(** * More invariants of the system *)

(** What a step does to the table and to the job the worker holds. *)
Lemma step_shape `{Externals} (s s' : Sys) :
  engine_quiet -> sys_invariant s -> step s s' ->
  (db (world s') = db (world s) /\ claimed s' = claimed s) \/
  (exists row,
     db (world s') = (db (world s) ++ [row])%list /\
     status row = "pending" /\ claimed s' = claimed s) \/
  (exists j0 now,
     claimed s = None /\ In j0 (db (world s)) /\ status j0 = "pending" /\
     db (world s') =
       update_rows (id j0) (set_status "processing") now (db (world s)) /\
     exists j, claimed s' = Some j /\ id j = id j0) \/
  (exists job row f ev now,
     claimed s = Some job /\ id row = id job /\ In row (db (world s)) /\
     status row = "processing" /\ terminal_write f ev /\
     db (world s') = update_rows (id row) f now (db (world s)) /\
     claimed s' = None).
Proof.
  intros Q (N & C & Cl) St. destruct St as [s ud k fn up form|s Hc|s job Hc];
    cbn [world claimed].
  - destruct (create_job_db ud k fn up form (world s))
      as [E|(row & E & P & _)]; cbv zeta in E.
    + left. auto.
    + right. left. exists row. auto.
  - rewrite get_next_job_eq.
    destruct (claim_select (db (world s))) as [j0|] eqn:S; cbn [fst snd].
    + right. right. left.
      destruct (claim_select_some _ _ S) as (I & P & _).
      assert (find (has_id (id j0)) (db (world s)) = Some j0) as F
          by now apply find_has_id_nodup.
      cbv zeta. unfold claim_update. cbn [db with_db].
      rewrite find_update_rows by reflexivity.
      rewrite String.eqb_refl, F.
      cbn [option_map fst snd db with_db with_events].
      exists j0, (utc_now (world s)). repeat split; trivial.
      eexists. split; reflexivity.
    + left. split; [reflexivity|]. now rewrite Hc.
  - right. right. right.
    destruct (Cl job Hc) as (row & F & S).
    destruct (process_job_outcome job row _ Q F)
      as (w1 & f & ev & D1 & _ & _ & _ & T & P).
    rewrite P. cbn [snd].
    destruct (finish_frame f ev row w1) as (Df & _). rewrite Df, D1.
    destruct (find_has_id_In _ _ _ F) as [I Eid].
    exists job, row, f, ev, (utc_now w1). repeat split; trivial.
Qed.




(** No operation of the system removes a row or rewrites the columns fixed
    at creation: after any step from a reachable state every job is still
    in the table with the same id, audio path, file name, configuration and
    [created_at]. *)
Theorem creation_columns_never_change `{Externals} (s s' : Sys) :
  engine_quiet -> reachable s -> step s s' ->
  forall k row, find (has_id k) (db (world s)) = Some row ->
    exists row',
      find (has_id k) (db (world s')) = Some row' /\
      same_creation_columns row row'.
Proof.
  intros Q R St k row F.
  pose proof (reachable_invariant s Q R) as Inv.
  assert (same_creation_columns row row) as Same by (repeat split).
  destruct (step_shape s s' Q Inv St)
    as [[E _]|[(r & E & _)
       |[(j0 & now & _ & _ & _ & E & _)
        |(job & r & f & ev & now & _ & _ & _ & _ & T & E & _)]]];
    rewrite E.
  - exists row. auto.
  - exists row. rewrite find_app_or, F. auto.
  - rewrite find_update_rows by reflexivity.
    destruct (String.eqb k (id j0)) eqn:Ek.
    + apply String.eqb_eq in Ek. subst k. rewrite F. cbn [option_map].
      eexists. split; [reflexivity|]. repeat split.
    + exists row. auto.
  - destruct (terminal_write_row f ev T) as [_ Hf].
    rewrite find_update_rows by (intros x; apply Hf).
    destruct (String.eqb k (id r)) eqn:Ek.
    + apply String.eqb_eq in Ek. subst k. rewrite F. cbn [option_map].
      eexists. split; [reflexivity|].
      destruct T; repeat split.
    + exists row. auto.
Qed.

Lemma creation_columns_never_change_witness :
  @engine_quiet engine_ok /\
  @reachable engine_ok (@state2 engine_ok) /\
  @step engine_ok (@state2 engine_ok) (@state3 engine_ok) /\
  find (has_id "J1") (db (world (@state2 engine_ok))) = Some claimed_J1 /\
  exists row',
    find (has_id "J1") (db (world (@state3 engine_ok))) = Some row' /\
    same_creation_columns claimed_J1 row'.
Proof.
  destruct sample_run_reachable as [R St].
  assert (find (has_id "J1") (db (world (@state2 engine_ok)))
          = Some claimed_J1) as F by (vm_compute; reflexivity).
  split; [exact engine_ok_quiet|]. split; [exact R|]. split; [exact St|].
  split; [exact F|].
  apply (@creation_columns_never_change engine_ok _ _ engine_ok_quiet R St
           "J1" claimed_J1 F).
Defined.

(** * From the worker's write to the reader *)





(** * Starting and stopping the worker *)

(** [get_status] says "stopped" exactly when [is_running] is false, and
    otherwise names the current job or says "idle".  [start] on a live
    thread only logs a warning; otherwise it sets [_running] and the worker
    is running.  After [stop] the worker reports "stopped" whatever the
    thread does, and the loop ends at its next test of [_running] without
    touching the table. *)
Theorem worker_start_stop_status `{Externals} (_thread : option bool)
    (w : World) :
  (Worker.get_status _thread w = "stopped" <->
   Worker.is_running _thread w = false) /\
  (Worker.is_running _thread w = true ->
   (forall k, _current_job_id w = Some k -> k <> "" ->
              Worker.get_status _thread w = "processing:" ++ k) /\
   (truthy (_current_job_id w) = false ->
    Worker.get_status _thread w = "idle")) /\
  Worker.start (Some true) w =
    (Ok (Some true),
     with_events w (events w ++ [EvLog WARNING "Worker is already running"]))
  /\
  (_thread <> Some true ->
   fst (Worker.start _thread w) = Ok (Some true) /\
   Worker.is_running (Some true) (snd (Worker.start _thread w)) = true /\
   db (snd (Worker.start _thread w)) = db w) /\
  fst (Worker.stop _thread w) = Ok None /\
  Worker.get_status None (snd (Worker.stop _thread w)) = "stopped" /\
  (forall alive, Worker.is_running (Some alive) (snd (Worker.stop _thread w))
                 = false) /\
  (forall poll rest,
     run_loop poll ((fun x => x) :: rest) (snd (Worker.stop _thread w))
     = (Ok LoopEnded, snd (Worker.stop _thread w))).
Proof.
  split; [|split; [|split; [|split; [|split; [|split; [|split]]]]]].
  - unfold Worker.get_status.
    destruct (Worker.is_running _thread w); cbn [negb].
    + split; [|discriminate].
      destruct (truthy (_current_job_id w)); [|discriminate].
      change ("processing:" ++ str_or (_current_job_id w) "")
        with (String "p" ("rocessing:" ++ str_or (_current_job_id w) "")).
      discriminate.
    + split; reflexivity.
  - intros Run. unfold Worker.get_status. rewrite Run. cbn [negb]. split.
    + intros k Ck Nk. rewrite Ck. cbn [truthy str_or].
      apply String.eqb_neq in Nk. now rewrite Nk.
    + intros T. now rewrite T.
  - reflexivity.
  - intros Nt. destruct _thread as [[|]|]; [contradiction| |];
      repeat split.
  - reflexivity.
  - reflexivity.
  - intros alive. reflexivity.
  - intros poll rest.
    cbn [run_loop]. unfold bind, modify, get_world. reflexivity.
Qed.

Lemma worker_start_stop_status_witness :
  let w := sample_world [] in
  Worker.get_status None w = "stopped" /\
  Worker.get_status (Some true) (snd (Worker.start None w)) = "idle" /\
  Worker.get_status (Some true) (with_current w (Some "J1"))
    = "processing:J1" /\
  Worker.get_status None (snd (Worker.stop (Some true) w)) = "stopped".
Proof.
  intros w.
  destruct (@worker_start_stop_status engine_ok None w)
    as (S & _ & _ & St & _).
  destruct (@worker_start_stop_status engine_ok (Some true)
              (with_current w (Some "J1")))
    as (_ & P & _).
  destruct (@worker_start_stop_status engine_ok (Some true) w)
    as (_ & _ & _ & _ & _ & Sp & _).
  split; [apply S; reflexivity|]. split; [reflexivity|].
  split; [|exact Sp].
  apply (proj1 (P eq_refl) "J1" eq_refl). discriminate.
Defined.

(** A turn of the loop that finds nothing pending claims nothing: it only
    sleeps for the poll interval, and the table, the files and the current
    job are as before. *)
Theorem idle_turn_only_sleeps `{Externals} (poll : Q) (w : World) :
  (forall r, In r (db w) -> status r <> "pending") ->
  _run_iteration poll w = (Ok tt, with_events w (events w ++ [EvSleep poll])).
Proof.
  intros Hnone.
  assert (claim_select (db w) = None) as Sel.
  { destruct (claim_select (db w)) as [j|] eqn:S; trivial.
    destruct (claim_select_some _ _ S) as (I & P & _).
    destruct (Hnone j I P). }
  unfold _run_iteration, try_except, _run_body, bind.
  rewrite get_next_job_eq, Sel. reflexivity.
Qed.

Lemma idle_turn_only_sleeps_witness :
  let w := sample_world five_jobs in
  (forall r, In r (db w) -> status r <> "pending") /\
  @_run_iteration engine_ok 2 w
    = (Ok tt, with_events w (events w ++ [EvSleep 2])).
Proof.
  intros w.
  assert (forall r, In r (db w) -> status r <> "pending") as N.
  { intros r I. cbn in I.
    repeat (destruct I as [<-|I]; [discriminate|]). destruct I. }
  split; [exact N|].
  apply (@idle_turn_only_sleeps engine_ok 2 w N).
Defined.

(** * A transcript that decodes to something else *)

Lemma map_M_raises {A B} (f : A -> M B) (l : list A) (x : A) :
  In x l -> (forall w, exists e, fst (f x w) = Raise e) ->
  forall w, exists e, fst (map_M f l w) = Raise e.
Proof.
  intros I Hx. induction l as [|y l IH]; [destruct I|].
  intros w. cbn [map_M]. unfold bind.
  destruct (f y w) as [[b|e] w1] eqn:Fy.
  - destruct I as [->|I].
    + destruct (Hx w) as [e E]. rewrite Fy in E. discriminate.
    + destruct (IH I w1) as [e E].
      destruct (map_M f l w1) as [[ys|e'] w2]; cbn [fst] in E;
        [discriminate|].
      exists e'. reflexivity.
  - exists e. reflexivity.
Qed.

(** Only [JSONDecodeError] is caught when a transcript is read.  A stored
    transcript that decodes to a value that is not an object (a list, a
    string, a number) makes [_job_to_response] raise [AttributeError]; so
    [get_job] for that job fails, and so does [list_jobs] for every page the
    job is on, whatever the other rows are. *)
Theorem non_object_transcript_breaks_reads `{Externals}
    (job : TranscriptionJob) (s : string) (v : JSON) (w : World) :
  transcript job = Some s -> s <> "" -> json_loads s = Some v ->
  (forall d, v <> JObj d) ->
  (forall w', _job_to_response job w' =
     (Raise (mkExc "AttributeError" "object has no attribute 'get'"), w')) /\
  (find (has_id (id job)) (db w) = Some job ->
   get_job (id job) w =
     (Raise (mkExc "AttributeError" "object has no attribute 'get'"), w)) /\
  (forall pg lim st,
     In job (list_jobs_rows pg lim st (db w)) ->
     exists e, fst (list_jobs pg lim st w) = Raise e).
Proof.
  intros T Ne J Nobj.
  assert (forall w', _job_to_response job w' =
            (Raise (mkExc "AttributeError" "object has no attribute 'get'"),
             w')) as Conv.
  { intros w'. unfold _job_to_response, bind, lift_result. rewrite T.
    cbn [truthy]. apply String.eqb_neq in Ne. rewrite Ne. cbn [negb].
    rewrite J. unfold read_transcript.
    destruct v as [| | | | |d]; try reflexivity.
    destruct (Nobj d eq_refl). }
  split; [exact Conv|]. split.
  - intros F. unfold get_job, bind, query_by_id. cbn [fst snd].
    rewrite F. apply Conv.
  - intros pg lim st I. unfold list_jobs, bind, get_world. cbn [fst snd].
    destruct (map_M_raises _job_to_response _ job I
                (fun w' => ex_intro _ _ (f_equal fst (Conv w'))) w) as [e E].
    destruct (map_M _job_to_response _ w) as [[ys|e'] w1]; cbn [fst] in E;
      [discriminate|].
    exists e'. reflexivity.
Qed.

Lemma non_object_transcript_breaks_reads_witness :
  let w := sample_world [sample_job "a" "pending" 1; listy_job] in
  transcript listy_job = Some "[]" /\
  @json_loads engine_lists "[]" = Some (JArr []) /\
  exc_type_of (fst (@get_job engine_lists "J8" w)) = Some "AttributeError" /\
  exists e, fst (@list_jobs engine_lists 1 20 None w) = Raise e.
Proof.
  intros w. split; [reflexivity|]. split; [reflexivity|].
  assert ("[]" <> "") as Ne by discriminate.
  assert (forall d, JArr [] <> JObj d) as No by discriminate.
  destruct (@non_object_transcript_breaks_reads engine_lists listy_job "[]"
              (JArr []) w eq_refl Ne eq_refl No) as (_ & G & L).
  split.
  - change "J8" with (id listy_job). rewrite (G eq_refl). reflexivity.
  - apply (L 1 20 None). vm_compute. auto.
Defined.
